(** * Node and page action creators of [packages/gatsby/src/redux/actions.js]

    A shallow embedding of the action creators and of the module-level
    type-ownership registry, with the properties the specification states
    about them.

    Conventions of the embedding.
    - A JavaScript object with a fixed set of properties is a record; a
      property that may be missing ([undefined]) has an [option] type.
    - An object used as a dictionary ([typeOwners], [node.fields],
      [node.internal.fieldOwners]) is a [gmap] with string keys.
    - A function that mutates its argument returns the argument as it is
      after the call next to what the call returned or threw.
    - [throw new Error(...)] is the outcome [Thrown e] where [e] names the
      message, a property read on [undefined] is [Thrown TypeError].
    - A read [dictionary[key]] finds the own entry of the key or, without
      one, the member every object inherits under that name
      ([constructor], [toString], ...), which is neither falsy nor a
      plugin name ([getProperty]). A write [dictionary[key] = value]
      creates or replaces the own entry; no write of this module is made
      under the key [__proto__] of a dictionary without such an entry.
    - The store maps ids to node values; the node object passed to an
      action creator is a value of its own, not the object held by the
      store. *)

From Stdlib Require Import Ascii.
From stdpp Require Import base option strings list gmap.

Open Scope string_scope.

(** ** Data model *)

(** The plugin identity handed to every action creator: [{ name }]. The
    plugin host takes the name from the plugin's package. *)
Record Plugin := { name : string }.

(** Field values are opaque to this module. *)
Definition Value := string.

(** [node.internal]. *)
Record Internal := {
  type : option string;
  owner : option string;
  contentDigest : option string;
  fieldOwners : option (gmap string string);
  mediaType : option string;
  content : option string;
}.

Record Node := {
  id : string;
  parent : string;
  children : list string;
  fields : option (gmap string Value);
  internal : option Internal;
}.

Record Page := {
  path : string;
  component : string;
  context : option (gmap string Value);
  componentChunkName : option string;
  jsonName : option string;
  internalComponentName : option string;
}.

#[global] Instance Plugin_eq_dec : EqDecision Plugin.
Proof. solve_decision. Defined.
#[global] Instance Internal_eq_dec : EqDecision Internal.
Proof. solve_decision. Defined.
#[global] Instance Node_eq_dec : EqDecision Node.
Proof. solve_decision. Defined.
#[global] Instance Page_eq_dec : EqDecision Page.
Proof. solve_decision. Defined.

(** The action objects the creators return, one constructor per [type] tag.
    The [plugin] property holds the argument as it was passed; [None] is a
    missing or empty plugin argument. *)
Inductive Action :=
  | DELETE_PAGE (payload : Page)
  | CREATE_PAGE (plugin : option Plugin) (payload : Page)
  | DELETE_NODE (plugin : option Plugin) (payload : string)
  | DELETE_NODES (plugin : option Plugin) (payload : list string)
  | VALIDATION_ERROR
  | TOUCH_NODE (plugin : option Plugin) (payload : string)
  | CREATE_NODE (plugin : option Plugin) (payload : Node)
  | ADD_FIELD_TO_NODE (plugin : option Plugin) (payload : Node)
  | ADD_CHILD_NODE_TO_PARENT_NODE (plugin : option Plugin) (payload : Node).

(** What [createNode] and [createNodeField] throw. *)
Inductive Error :=
  | ReservedFieldViolation   (* "... can not set data on the reserved field" *)
  | OwnershipConflict        (* "... a node of a type owned by another plugin" *)
  | OwnershipViolation       (* "Nodes can only be updated by their owner" *)
  | FieldOwnershipConflict   (* "... a node field that it doesn't own" *)
  | TypeError.               (* property read on undefined *)

Inductive Outcome :=
  | Returned (a : Action)
  | ReturnedUndefined
  | Thrown (e : Error).

#[global] Instance Error_eq_dec : EqDecision Error.
Proof. solve_decision. Defined.

(** ** State *)

(** [typeOwners] is the module-level registry of line 116; [nodes] is the
    store of record the module reads through [getNode] and
    [hasNodeChanged]. No action creator writes [nodes]. *)
Record State := {
  typeOwners : gmap string string;
  nodes : gmap string Node;
}.

(** Modelled from the spec: [getNode] of [./index], which is not part of the
    sources: "authoritative current-state lookup" by node id. *)
Definition getNode (s : State) (i : string) : option Node := nodes s !! i.

Definition digestOf (n : Node) : option string :=
  i ← internal n; contentDigest i.

(** Modelled from the spec: [hasNodeChanged] of [./index], which is not part
    of the sources: "compares stored digest to candidate digest". A node
    that is not stored counts as changed; [createNode] asks only about
    stored nodes. *)
Definition hasNodeChanged (s : State) (i : string) (digest : option string) : bool :=
  match getNode s i with
  | None => true
  | Some n => negb (bool_decide (digestOf n = digest))
  end.

(** ** JavaScript helpers *)

(** Truthiness of a string-valued property: [undefined] and the empty string
    are falsy. *)
Definition truthy (o : option string) : bool :=
  match o with
  | None => false
  | Some s => negb (bool_decide (s = ""))
  end.

(** The names of the members a plain object inherits from
    [Object.prototype]. *)
Definition inheritedNames : list string :=
  [ "constructor"; "hasOwnProperty"; "isPrototypeOf"; "propertyIsEnumerable";
    "toLocaleString"; "toString"; "valueOf"; "__proto__";
    "__defineGetter__"; "__defineSetter__"; "__lookupGetter__";
    "__lookupSetter__" ].

(** What a read [dictionary[key]] of a plain object with string values
    finds: the value of the own entry, the inherited member when the key has
    no own entry and is an inherited name, or [undefined]. *)
Inductive Property :=
  | Own (v : string)
  | Inherited
  | Missing.

Definition getProperty (m : gmap string string) (k : string) : Property :=
  match m !! k with
  | Some v => Own v
  | None => if bool_decide (k ∈ inheritedNames) then Inherited else Missing
  end.

(** Truthiness of what was read: an inherited member is a function or an
    object. *)
Definition truthyProperty (x : Property) : bool :=
  match x with
  | Own v => negb (bool_decide (v = ""))
  | Inherited => true
  | Missing => false
  end.

(** [x === s] for a string [s]. *)
Definition isString (x : Property) (s : string) : bool :=
  match x with
  | Own v => bool_decide (v = s)
  | _ => false
  end.

(** A property key is converted to a string; [undefined] becomes
    ["undefined"]. *)
Definition propertyKey (o : option string) : string := default "undefined" o.

Definition emptyInternal : Internal :=
  {| type := None; owner := None; contentDigest := None;
     fieldOwners := None; mediaType := None; content := None |}.

Definition setOwner (o : option string) (i : Internal) : Internal :=
  {| type := type i; owner := o; contentDigest := contentDigest i;
     fieldOwners := fieldOwners i; mediaType := mediaType i;
     content := content i |}.

Definition setContentDigest (d : option string) (i : Internal) : Internal :=
  {| type := type i; owner := owner i; contentDigest := d;
     fieldOwners := fieldOwners i; mediaType := mediaType i;
     content := content i |}.

Definition setFieldOwners (o : option (gmap string string)) (i : Internal) : Internal :=
  {| type := type i; owner := owner i; contentDigest := contentDigest i;
     fieldOwners := o; mediaType := mediaType i; content := content i |}.

Definition setInternal (i : option Internal) (n : Node) : Node :=
  {| id := id n; parent := parent n; children := children n;
     fields := fields n; internal := i |}.

Definition setFields (f : option (gmap string Value)) (n : Node) : Node :=
  {| id := id n; parent := parent n; children := children n;
     fields := f; internal := internal n |}.

Definition setChildren (c : list string) (n : Node) : Node :=
  {| id := id n; parent := parent n; children := c;
     fields := fields n; internal := internal n |}.

(** ** createNode (lines 167-271)

    The argument is a node object: the [_.isObject] guard of line 168 is
    for arguments that are none. *)

(** What a call leaves behind: the registry and store, the caller's node
    object as mutated by the call, and what the call returned or threw. *)
Record NodeCall := {
  state' : State;
  node' : Node;
  outcome : Outcome;
}.

(** Lines 176-184: [node.internal] is created when missing and
    [node.internal.owner] is set when a plugin is given. *)
Definition stampedInternal (plugin : option Plugin) (node : Node) : Internal :=
  let i := default emptyInternal (internal node) in
  match plugin with
  | Some p => setOwner (Some (name p)) i
  | None => i
  end.

Definition stamp (plugin : option Plugin) (node : Node) : Node :=
  setInternal (Some (stampedInternal plugin node)) node.

Definition setTypeOwner (k v : string) (s : State) : State :=
  {| typeOwners := <[k := v]> (typeOwners s); nodes := nodes s |}.

Section CreateNode.

(** [Joi.validate(node, joiSchemas.nodeSchema)] has no error. The schema is
    defined in [../joi-schemas/joi], outside the sources. *)
Variable nodeSchema : Node → bool.

(** Lines 242-270, reached with the registry already updated. *)
Definition createNodeStored (s : State) (node : Node) (i : Internal)
    (p : Plugin) : NodeCall :=
  match getNode s (id node) with
  | None =>
      {| state' := s; node' := node;
         outcome := Returned (CREATE_NODE (Some p) node) |}
  | Some oldNode =>
      match internal oldNode with
      | None => {| state' := s; node' := node; outcome := Thrown TypeError |}
      | Some oldInternal =>
          if bool_decide (owner oldInternal ≠ Some (name p)) then
            {| state' := s; node' := node;
               outcome := Thrown OwnershipViolation |}
          else if negb (hasNodeChanged s (id node) (contentDigest i)) then
            {| state' := s; node' := node;
               outcome := Returned (TOUCH_NODE (Some p) (id node)) |}
          else
            {| state' := s; node' := node;
               outcome := Returned (CREATE_NODE (Some p) node) |}
      end
  end.

Definition createNode (s : State) (node : Node) (plugin : option Plugin)
    : NodeCall :=
  (* 176-184 *)
  let i := stampedInternal plugin node in
  let node := setInternal (Some i) node in
  (* 186-192 *)
  if negb (nodeSchema node) then
    {| state' := s; node' := node; outcome := Returned VALIDATION_ERROR |}
  (* 194-213 *)
  else if bool_decide (is_Some (fields node)) then
    {| state' := s; node' := node; outcome := Thrown ReservedFieldViolation |}
  else
    (* 215-240 *)
    let k := propertyKey (type i) in
    match plugin with
    | None =>
        (* [plugin.name] at line 220 *)
        {| state' := s; node' := node; outcome := Thrown TypeError |}
    | Some p =>
        let typeOwner := getProperty (typeOwners s) k in
        if negb (truthyProperty typeOwner) then
          createNodeStored (setTypeOwner k (name p) s) node i p
        else if negb (isString typeOwner (name p)) then
          {| state' := s; node' := node; outcome := Thrown OwnershipConflict |}
        else
          createNodeStored s node i p
    end.

End CreateNode.

(** ** deleteNode, deleteNodes (lines 94-114) *)

Definition deleteNode (nodeId : string) (plugin : option Plugin) : Outcome :=
  Returned (DELETE_NODE plugin nodeId).

Definition deleteNodes (nodeIds : list string) (plugin : option Plugin) : Outcome :=
  Returned (DELETE_NODES plugin nodeIds).

(** ** createNodeField (lines 287-320) *)

Definition putField (k : string) (v : Value) (n : Node) : Node :=
  setFields (Some (<[k := v]> (default ∅ (fields n)))) n.

Definition putFieldOwner (k v : string) (i : Internal) : Internal :=
  setFieldOwners (Some (<[k := v]> (default ∅ (fieldOwners i)))) i.

Definition createNodeField (node : Node) (fieldName : string)
    (fieldValue : Value) (plugin : option Plugin) : Node * Outcome :=
  match internal node with
  | None => (node, Thrown TypeError)           (* [node.internal.fieldOwners] *)
  | Some i =>
      (* 289-294 *)
      let i := setFieldOwners (Some (default ∅ (fieldOwners i))) i in
      let node := setFields (Some (default ∅ (fields node)))
                    (setInternal (Some i) node) in
      (* 297 *)
      let fieldOwner := getProperty (default ∅ (fieldOwners i)) fieldName in
      match plugin with
      | None =>
          if truthyProperty fieldOwner then (node, Thrown TypeError) (* 298 *)
          else (putField fieldName fieldValue node, Thrown TypeError) (* 313 *)
      | Some p =>
          if truthyProperty fieldOwner && negb (isString fieldOwner (name p)) then
            (node, Thrown FieldOwnershipConflict)
          else
            (* 312-313 *)
            let node := setInternal (Some (putFieldOwner fieldName (name p) i))
                          (putField fieldName fieldValue node) in
            (node, Returned (ADD_FIELD_TO_NODE plugin node))
      end
  end.

(** ** lodash *)

(** The functions of lodash 4 the module calls, on 7-bit ASCII strings
    (code points from 128 on are taken as separators, [deburr] is the
    identity on ASCII). *)
Module Lodash.

Definition code (c : ascii) : N := Ascii.N_of_ascii c.
Definition isLower (c : ascii) : bool := ((97 <=? code c) && (code c <=? 122))%N.
Definition isUpper (c : ascii) : bool := ((65 <=? code c) && (code c <=? 90))%N.
Definition isDigit (c : ascii) : bool := ((48 <=? code c) && (code c <=? 57))%N.
Definition isAlnum (c : ascii) : bool := isLower c || isUpper c || isDigit c.

Definition toLower (c : ascii) : ascii :=
  if isUpper c then Ascii.ascii_of_N (code c + 32) else c.
Definition toUpper (c : ascii) : ascii :=
  if isLower c then Ascii.ascii_of_N (code c - 32) else c.

Fixpoint span (p : ascii → bool) (l : list ascii) : list ascii * list ascii :=
  match l with
  | c :: l' =>
      if p c then let '(a, b) := span p l' in (c :: a, b) else ([], l)
  | [] => ([], [])
  end.

Definition startsWith (p : ascii → bool) (l : list ascii) : bool :=
  match l with c :: _ => p c | [] => false end.

(** [_.uniq]: the first occurrence of every element, in order
    ([baseUniq]: an element is pushed unless the result holds it). *)
Fixpoint baseUniq (seen l : list string) : list string :=
  match l with
  | [] => []
  | x :: l' =>
      if bool_decide (x ∈ seen) then baseUniq seen l'
      else x :: baseUniq (x :: seen) l'
  end.

Definition uniq (l : list string) : list string := baseUniq [] l.

(** [rsOrdUpper] and [rsOrdLower] after a run of digits [ds]:
    [\d*(?:1ST|2ND|3RD|(?![123])\dTH)(?=\b|[a-z_])] and its lower-case
    twin. Returns the two-letter suffix and what follows it. *)
Definition ordinalSuffix (upper : bool) (ds r : list ascii)
    : option (list ascii * list ascii) :=
  match r with
  | a :: b :: r' =>
      let sfx := String.string_of_list_ascii [a; b] in
      let d := last ds in
      let want :=
        if bool_decide (d = Some "1"%char) then (if upper then "ST" else "st")
        else if bool_decide (d = Some "2"%char) then (if upper then "ND" else "nd")
        else if bool_decide (d = Some "3"%char) then (if upper then "RD" else "rd")
        else (if upper then "TH" else "th") in
      let blocked :=
        startsWith isDigit r'
        || startsWith (if upper then isUpper else isLower) r' in
      if bool_decide (sfx = want) && negb blocked then Some ([a; b], r')
      else None
  | _ => None
  end.

(** One match of [reUnicodeWord] anchored at the head of [l]. With the
    apostrophes removed beforehand and no character outside ASCII, the
    alternatives reduce to: a run of lower-case letters; an upper-case
    letter and the lower-case run after it; a run of upper-case letters,
    without its last letter when a lower-case letter follows; a run of
    digits with an ordinal suffix; a run of digits. *)
Definition matchAt (l : list ascii) : option (list ascii * list ascii) :=
  match l with
  | [] => None
  | c :: _ =>
      if isLower c then Some (span isLower l)
      else if isUpper c then
        let '(us, r) := span isUpper l in
        if startsWith isLower r then
          match us with
          | [u] => let '(ls, r') := span isLower r in Some (u :: ls, r')
          | _ => Some (removelast us, from_option (λ u, u :: r) r (last us))
          end
        else Some (us, r)
      else if isDigit c then
        let '(ds, r) := span isDigit l in
        match ordinalSuffix true ds r with
        | Some (sfx, r') => Some ((ds ++ sfx)%list, r')
        | None =>
            match ordinalSuffix false ds r with
            | Some (sfx, r') => Some ((ds ++ sfx)%list, r')
            | None => Some (ds, r)
            end
        end
      else None
  end.

(** [string.match(reUnicodeWord)]: every match consumes a character, so
    the length of the input bounds the number of steps. *)
Fixpoint unicodeWordsFrom (fuel : nat) (l : list ascii) : list (list ascii) :=
  match fuel, l with
  | S fuel, c :: l' =>
      match matchAt l with
      | Some (w, r) => w :: unicodeWordsFrom fuel r
      | None => unicodeWordsFrom fuel l'
      end
  | _, _ => []
  end.

Definition unicodeWords (l : list ascii) : list (list ascii) :=
  unicodeWordsFrom (length l) l.

(** [reAsciiWord]: the runs of letters and digits. *)
Fixpoint asciiWordsFrom (fuel : nat) (l : list ascii) : list (list ascii) :=
  match fuel, l with
  | S fuel, c :: l' =>
      if isAlnum c then
        let '(w, r) := span isAlnum l in w :: asciiWordsFrom fuel r
      else asciiWordsFrom fuel l'
  | _, _ => []
  end.

Definition asciiWords (l : list ascii) : list (list ascii) :=
  asciiWordsFrom (length l) l.

(** [reHasUnicodeWord]:
    [[a-z][A-Z]|[A-Z]{2}[a-z]|[0-9][a-zA-Z]|[a-zA-Z][0-9]|[^a-zA-Z0-9 ]]. *)
Fixpoint hasUnicodeWord (l : list ascii) : bool :=
  match l with
  | [] => false
  | c :: l' =>
      negb (isAlnum c || bool_decide (c = " "%char))
      || (isLower c && startsWith isUpper l')
      || (isUpper c && startsWith isUpper l' && startsWith isLower (tail l'))
      || (isDigit c && startsWith (λ x, isLower x || isUpper x) l')
      || ((isLower c || isUpper c) && startsWith isDigit l')
      || hasUnicodeWord l'
  end.

Definition words (s : string) : list string :=
  let l := String.list_ascii_of_string s in
  String.string_of_list_ascii <$>
    (if hasUnicodeWord l then unicodeWords l else asciiWords l).

Definition toLowerCase (s : string) : string :=
  String.string_of_list_ascii (toLower <$> String.list_ascii_of_string s).

Definition upperFirst (s : string) : string :=
  match s with
  | String c s' => String (toUpper c) s'
  | EmptyString => EmptyString
  end.

Definition capitalize (s : string) : string := upperFirst (toLowerCase s).

(** [deburr(string).replace(reApos, '')] *)
Definition dropApostrophes (s : string) : string :=
  String.string_of_list_ascii
    (filter (λ c, c ≠ "'"%char) (String.list_ascii_of_string s)).

(** [createCompounder(callback)]: the callback folded over the words, with
    the index of the word. *)
Fixpoint compound (callback : string → string → nat → string)
    (result : string) (index : nat) (ws : list string) : string :=
  match ws with
  | [] => result
  | w :: ws' => compound callback (callback result w index) (S index) ws'
  end.

Definition kebabCase (s : string) : string :=
  compound
    (λ result word index,
       result ++ (if index is O then "" else "-") ++ toLowerCase word)
    "" 0 (words (dropApostrophes s)).

Definition camelCase (s : string) : string :=
  compound
    (λ result word index,
       let word := toLowerCase word in
       result ++ (if index is O then word else capitalize word))
    "" 0 (words (dropApostrophes s)).

End Lodash.

(** Line 29: [_.flow(_.camelCase, _.upperFirst)]. *)
Definition pascalCase (s : string) : string :=
  Lodash.upperFirst (Lodash.camelCase s).

(** ** deletePage, createPage (lines 22-86) *)

Definition deletePage (page : Page) (plugin : option Plugin) : Outcome :=
  Returned (DELETE_PAGE page).

Definition setPath (p : string) (page : Page) : Page :=
  {| path := p; component := component page; context := context page;
     componentChunkName := componentChunkName page; jsonName := jsonName page;
     internalComponentName := internalComponentName page |}.

(** Lines 53-58: the two names derived from the path. *)
Definition pageNames (p : string) : string * string :=
  let jsonName := Lodash.kebabCase p ++ ".json" in
  let internalComponentName := "Component" ++ pascalCase p in
  if bool_decide (jsonName = ".json") then ("index.json", "ComponentIndex")
  else (jsonName, internalComponentName).

Section CreatePage.

(** [Joi.validate(page, joiSchemas.pageSchema)] has no error. *)
Variable pageSchema : Page → bool.

(** The chunk naming of [../utils/js-chunk-names], outside the sources. *)
Variable layoutComponentChunkName : string → string.

(** Lines 51-66: the page object as it is when it is validated. *)
Definition derivePage (page : Page) : Page :=
  {| path := path page;
     component := component page;
     context := Some (default ∅ (context page));
     componentChunkName := Some (layoutComponentChunkName (component page));
     jsonName := Some (pageNames (path page)).1;
     internalComponentName := Some (pageNames (path page)).2 |}.

(** Lines 76-79: [page.path[0] !== "/"]. *)
Definition normalizePath (p : string) : string :=
  match p with
  | String "/" _ => p
  | _ => "/" ++ p
  end.

Definition createPage (page : Page) (plugin : option Plugin) : Page * Outcome :=
  let page := derivePage page in
  if negb (pageSchema page) then (page, ReturnedUndefined)   (* 68-74 *)
  else
    let page := setPath (normalizePath (path page)) page in
    (page, Returned (CREATE_PAGE plugin page)).

End CreatePage.

(** ** addNodeToParent (lines 322-332) *)

Definition addNodeToParent (parentNode childNode : Node)
    (plugin : option Plugin) : Node * Outcome :=
  let parentNode :=
    setChildren (Lodash.uniq (children parentNode ++ [id childNode])%list)
      parentNode in
  (parentNode, Returned (ADD_CHILD_NODE_TO_PARENT_NODE plugin parentNode)).

(** ** Observations and runs *)

Definition typeOf (n : Node) : option string := i ← internal n; type i.
Definition ownerOf (n : Node) : option string := i ← internal n; owner i.

(** The record passes the two gates of lines 186-213: it validates once
    stamped, and it does not set [fields]. *)
Definition admissible (nodeSchema : Node → bool) (plugin : option Plugin)
    (n : Node) : Prop :=
  nodeSchema (stamp plugin n) = true ∧ fields n = None.

(** The call produced a node action. *)
Definition accepted (o : Outcome) : bool :=
  match o with
  | Returned (CREATE_NODE _ _) | Returned (TOUCH_NODE _ _) => true
  | _ => false
  end.

(** The arguments of one call, with the store as it is when the call is
    made: the dispatcher changes the store between calls, only [createNode]
    changes the registry. *)
Record CreateNodeArgs := {
  argNodes : gmap string Node;
  argNode : Node;
  argPlugin : option Plugin;
}.

Fixpoint registryAfter (nodeSchema : Node → bool) (reg : gmap string string)
    (calls : list CreateNodeArgs) : gmap string string :=
  match calls with
  | [] => reg
  | c :: calls =>
      registryAfter nodeSchema
        (typeOwners (state' (createNode nodeSchema
           {| typeOwners := reg; nodes := argNodes c |} (argNode c) (argPlugin c))))
        calls
  end.

Definition fieldOwnerOf (n : Node) (F : string) : option string :=
  i ← internal n; o ← fieldOwners i; o !! F.

Definition fieldOf (n : Node) (F : string) : option Value :=
  f ← fields n; f !! F.

(** The arguments of one [createNodeField] call on a node object. *)
Record FieldArgs := {
  argFieldName : string;
  argFieldValue : Value;
  argFieldPlugin : option Plugin;
}.

(** The node object after a run of [createNodeField] calls on it. *)
Fixpoint nodeAfter (n : Node) (calls : list FieldArgs) : Node :=
  match calls with
  | [] => n
  | c :: calls =>
      nodeAfter
        (createNodeField n (argFieldName c) (argFieldValue c)
           (argFieldPlugin c)).1
        calls
  end.

(** [fields] and [internal.fieldOwners] are both objects. *)
Definition fieldsReady (n : Node) : Prop :=
  is_Some (fields n) ∧ ∃ i, internal n = Some i ∧ is_Some (fieldOwners i).

(** ** Sample schemas and records

    The Joi schemas are outside the sources; the concrete runs below use
    schemas in their shape: the documented string properties are required,
    and a required Joi string is not empty. *)

Definition sampleNodeSchema (n : Node) : bool :=
  negb (bool_decide (id n = ""))
  && match internal n with
     | Some i =>
         truthy (type i) && truthy (contentDigest i) && truthy (owner i)
         && truthy (mediaType i)
     | None => false
     end.

Definition samplePageSchema (p : Page) : bool :=
  negb (bool_decide (path p = "")) && negb (bool_decide (component p = "")).

Definition sampleChunkName (componentPath : string) : string :=
  "component---" ++ Lodash.kebabCase componentPath.

Definition mkNode (i t d : string) : Node :=
  {| id := i; parent := ""; children := []; fields := None;
     internal := Some {| type := Some t; owner := None;
                         contentDigest := Some d; fieldOwners := None;
                         mediaType := Some "text/x-markdown";
                         content := None |} |}.

Definition mkPage (p c : string) : Page :=
  {| path := p; component := c; context := None; componentChunkName := None;
     jsonName := None; internalComponentName := None |}.

Definition emptyState : State := {| typeOwners := ∅; nodes := ∅ |}.

(** Modelled from the spec: the dispatcher, which is not part of the
    sources, "applies a canonical event to the store of record"; for
    [CREATE_NODE] the payload is stored under its id. *)
Definition stored (n : Node) (s : State) : State :=
  {| typeOwners := typeOwners s; nodes := <[id n := n]> (nodes s) |}.

(** ** Records of the concrete runs *)

Definition pluginP : Plugin := {| name := "gatsby-source-filesystem" |}.
Definition pluginQ : Plugin := {| name := "gatsby-transformer-remark" |}.

Definition nodeA : Node := mkNode "node-1" "File" "digest-1".
(** The same id and type with another digest. *)
Definition nodeA2 : Node := mkNode "node-1" "File" "digest-2".
(** The same id with a type nobody has used. *)
Definition nodeB : Node := mkNode "node-1" "Markdown" "digest-2".
(** The same id with an empty digest, which does not validate. *)
Definition nodeA0 : Node := mkNode "node-1" "File" "".
(** A record that sets [fields] and has an empty id. *)
Definition nodeBad : Node :=
  setFields (Some {[ "x" := "1" ]}) (mkNode "" "File" "digest-1").
(** A valid record that sets [fields]. *)
Definition nodeWithFields : Node := setFields (Some {[ "x" := "1" ]}) nodeA.

(** [pluginP] creates [nodeA] in the empty state. *)
Definition createdA : NodeCall :=
  createNode sampleNodeSchema emptyState nodeA (Some pluginP).

(** Registry and store once the dispatcher has applied that action. *)
Definition stateA : State := stored (node' createdA) (state' createdA).

Definition pageAbout : Page := mkPage "about" "/site/src/pages/about.js".
(** A page with an empty path: a required Joi string is not empty. *)
Definition pageBad : Page := mkPage "" "/site/src/templates/post.js".

(** A record of type ["constructor"]. *)
Definition nodeCtor : Node := mkNode "node-5" "constructor" "digest-5".

(** ** Records of the further properties *)

(** The record with [internal.owner] set by the caller before the call. *)
Definition presetOwner (o : option string) (n : Node) : Node :=
  setInternal (Some (setOwner o (default emptyInternal (internal n)))) n.

(** An ASCII character that is no letter and no digit. *)
Definition separator (c : ascii) : Prop :=
  Lodash.isAlnum c = false ∧ (Lodash.code c < 128)%N.

(** [nodeA] with an owner written by the caller. *)
Definition nodeOwned : Node := presetOwner (Some "somebody") nodeA.
(** A record whose id is not stored. *)
Definition nodeC : Node := mkNode "node-9" "File" "digest-9".
(** A parent with two children. *)
Definition nodeParent : Node :=
  setChildren ["node-7"; "node-8"] (mkNode "node-0" "Directory" "digest-0").

(** [pluginQ] has set the field ["slug"] on the node [pluginP] created. *)
Definition nodeSlug : Node :=
  (createNodeField (node' createdA) "slug" "/a/" (Some pluginQ)).1.
(** One later call: [pluginQ] creates a node of another type. *)
Definition callsQ : list CreateNodeArgs :=
  [ {| argNodes := nodes stateA;
       argNode := mkNode "node-2" "Markdown" "digest-3";
       argPlugin := Some pluginQ |} ].

(** * Properties *)

(** ** lodash on examples *)

(** The examples of the lodash documentation, and some paths. *)
Example kebabCase_examples :
  Lodash.kebabCase "Foo Bar" = "foo-bar"
  ∧ Lodash.kebabCase "fooBar" = "foo-bar"
  ∧ Lodash.kebabCase "__FOO_BAR__" = "foo-bar"
  ∧ Lodash.kebabCase "XMLHttpRequest" = "xml-http-request"
  ∧ Lodash.kebabCase "/blog/my-post" = "blog-my-post"
  ∧ Lodash.kebabCase "/2017/01-post_1st/" = "2017-01-post-1st"
  ∧ Lodash.kebabCase "/" = "".
Proof. by vm_compute. Qed.

Example camelCase_examples :
  Lodash.camelCase "Foo Bar" = "fooBar"
  ∧ Lodash.camelCase "--foo-bar--" = "fooBar"
  ∧ Lodash.camelCase "__FOO_BAR__" = "fooBar"
  ∧ pascalCase "/blog/my-post" = "BlogMyPost"
  ∧ pascalCase "/" = "".
Proof. by vm_compute. Qed.

Example words_examples :
  Lodash.words "fred, barney, & pebbles" = ["fred"; "barney"; "pebbles"]
  ∧ Lodash.words "safe HTML" = ["safe"; "HTML"]
  ∧ Lodash.words "enable 24h format" = ["enable"; "24"; "h"; "format"]
  ∧ Lodash.upperFirst "fred" = "Fred"
  ∧ Lodash.capitalize "FRED" = "Fred"
  ∧ Lodash.uniq ["b"; "a"; "b"] = ["b"; "a"].
Proof. by vm_compute. Qed.

(** ** The word scanners have fuel enough *)

Lemma span_snd_length p l : (length (Lodash.span p l).2 ≤ length l)%nat.
Proof.
  induction l as [|c l IH]; cbn; [done|].
  destruct (p c); cbn; [|lia].
  destruct (Lodash.span p l); cbn in *. lia.
Qed.

Lemma span_cons p c l :
  p c = true →
  Lodash.span p (c :: l) = (c :: (Lodash.span p l).1, (Lodash.span p l).2).
Proof. intros Hc. cbn. rewrite Hc. by destruct (Lodash.span p l). Qed.

Lemma span_length p l :
  (length (Lodash.span p l).1 + length (Lodash.span p l).2)%nat = length l.
Proof.
  induction l as [|c l IH]; cbn; [done|].
  destruct (p c); cbn; [|done].
  destruct (Lodash.span p l); cbn in *. lia.
Qed.

Lemma ordinalSuffix_shorter upper ds r sfx r' :
  Lodash.ordinalSuffix upper ds r = Some (sfx, r') → (length r' < length r)%nat.
Proof.
  unfold Lodash.ordinalSuffix. destruct r as [|a [|b r0]]; try done.
  destruct (_ && _); [|done]. intros [= _ <-]. cbn. lia.
Qed.

(** A match consumes at least one character. *)
Lemma matchAt_shorter l w r :
  Lodash.matchAt l = Some (w, r) → (length r < length l)%nat.
Proof.
  destruct l as [|c l]; [done|]. unfold Lodash.matchAt.
  destruct (Lodash.isLower c) eqn:Hl.
  { rewrite (span_cons _ _ _ Hl). intros [= _ <-].
    pose proof (span_snd_length Lodash.isLower l). cbn. lia. }
  destruct (Lodash.isUpper c) eqn:Hu.
  { rewrite (span_cons _ _ _ Hu).
    pose proof (span_length Lodash.isUpper l) as Hlen.
    destruct (Lodash.span Lodash.isUpper l) as [us r0]; cbn in Hlen.
    cbn [fst snd].
    destruct (Lodash.startsWith Lodash.isLower r0).
    - destruct us as [|u us].
      + pose proof (span_snd_length Lodash.isLower r0).
        destruct (Lodash.span Lodash.isLower r0) as [ls r1]; cbn in *.
        intros [= _ <-]. lia.
      + intros [= _ <-].
        destruct (last (u :: us)); cbn in *; lia.
    - intros [= _ <-]. cbn. lia. }
  destruct (Lodash.isDigit c) eqn:Hd; [|done].
  rewrite (span_cons _ _ _ Hd).
  pose proof (span_snd_length Lodash.isDigit l) as Hlen.
  destruct (Lodash.span Lodash.isDigit l) as [ds r0]; cbn in Hlen.
  cbn [fst snd].
  destruct (Lodash.ordinalSuffix true _ _) as [[sfx r1]|] eqn:E1.
  { intros [= _ <-]. apply ordinalSuffix_shorter in E1. cbn. lia. }
  destruct (Lodash.ordinalSuffix false _ _) as [[sfx r1]|] eqn:E2.
  { intros [= _ <-]. apply ordinalSuffix_shorter in E2. cbn. lia. }
  intros [= _ <-]. cbn. lia.
Qed.

(** With the length of the input as fuel the scan reaches the end of the
    input: more fuel finds the same words. *)
Lemma unicodeWordsFrom_fuel n : ∀ m l,
  (length l ≤ n)%nat → (length l ≤ m)%nat →
  Lodash.unicodeWordsFrom n l = Lodash.unicodeWordsFrom m l.
Proof.
  induction n as [|n IH]; intros m l Hn Hm.
  - destruct l; [|cbn in Hn; lia]. by destruct m.
  - destruct l as [|c l]; [by destruct m|].
    destruct m as [|m]; [cbn in Hm; lia|].
    cbn [Lodash.unicodeWordsFrom].
    destruct (Lodash.matchAt (c :: l)) as [[w r]|] eqn:E.
    + apply matchAt_shorter in E. cbn in *. f_equal. apply IH; lia.
    + cbn in *. apply IH; lia.
Qed.

Lemma unicodeWords_fuel n l :
  (length l ≤ n)%nat → Lodash.unicodeWordsFrom n l = Lodash.unicodeWords l.
Proof. intros Hn. by apply unicodeWordsFrom_fuel. Qed.

Lemma asciiWordsFrom_fuel n : ∀ m l,
  (length l ≤ n)%nat → (length l ≤ m)%nat →
  Lodash.asciiWordsFrom n l = Lodash.asciiWordsFrom m l.
Proof.
  induction n as [|n IH]; intros m l Hn Hm.
  - destruct l; [|cbn in Hn; lia]. by destruct m.
  - destruct l as [|c l]; [by destruct m|].
    destruct m as [|m]; [cbn in Hm; lia|].
    cbn [Lodash.asciiWordsFrom].
    destruct (Lodash.isAlnum c) eqn:Hc.
    + rewrite (span_cons _ _ _ Hc).
      pose proof (span_snd_length Lodash.isAlnum l).
      cbn in *. f_equal. apply IH; lia.
    + cbn in *. apply IH; lia.
Qed.

Lemma asciiWords_fuel n l :
  (length l ≤ n)%nat → Lodash.asciiWordsFrom n l = Lodash.asciiWords l.
Proof. intros Hn. by apply asciiWordsFrom_fuel. Qed.

(** ** Shared facts about [createNode] *)

Lemma stampedInternal_type plugin n : type (stampedInternal plugin n) = typeOf n.
Proof. unfold stampedInternal, typeOf. by destruct plugin, (internal n). Qed.

Lemma stampedInternal_digest plugin n :
  contentDigest (stampedInternal plugin n) = digestOf n.
Proof. unfold stampedInternal, digestOf. by destruct plugin, (internal n). Qed.

Lemma stamp_idemp plugin n : stamp plugin (stamp plugin n) = stamp plugin n.
Proof.
  unfold stamp, stampedInternal, setInternal; simpl.
  by destruct plugin, (internal n).
Qed.

Lemma truthy_Some_ne s : s ≠ "" → truthy (Some s) = true.
Proof. intros. unfold truthy. by rewrite bool_decide_false. Qed.

(** Reads of a dictionary, by its own entries. *)
Lemma isString_lookup m k s :
  isString (getProperty m k) s = bool_decide (m !! k = Some s).
Proof.
  unfold getProperty. destruct (m !! k) as [v|]; cbn.
  - apply bool_decide_ext. split; congruence.
  - by destruct (bool_decide (k ∈ inheritedNames)).
Qed.

Lemma truthyProperty_own m k :
  truthy (m !! k) = true → truthyProperty (getProperty m k) = true.
Proof. unfold getProperty. by destruct (m !! k). Qed.

Lemma truthyProperty_plain m k :
  k ∉ inheritedNames → truthyProperty (getProperty m k) = truthy (m !! k).
Proof.
  intros Hk. unfold getProperty. destruct (m !! k); [done|].
  by rewrite bool_decide_false.
Qed.

Lemma truthyProperty_false m k :
  truthyProperty (getProperty m k) = false → truthy (m !! k) = false.
Proof.
  unfold getProperty. destruct (m !! k); [done|].
  by destruct (bool_decide _).
Qed.

(** Closes [k ∉ inheritedNames] for a given key. *)
Ltac not_inherited := apply (bool_decide_unpack _); by vm_compute.

Ltac createNode_cases :=
  unfold createNode, createNodeStored, stamp;
  repeat (case_match; simpl in *; try done).

Section CreateNodeFacts.

Variable nodeSchema : Node → bool.
#[local] Abbreviation createNode := (createNode nodeSchema).

Lemma createNode_node' s n plugin :
  node' (createNode s n plugin) = stamp plugin n.
Proof. createNode_cases. Qed.

Lemma createNode_nodes s n plugin :
  nodes (state' (createNode s n plugin)) = nodes s.
Proof. createNode_cases. Qed.

Lemma createNodeStored_state s n i p :
  state' (createNodeStored s n i p) = s.
Proof. unfold createNodeStored. by repeat case_match. Qed.

(** A recorded, non-empty owner of a type is never replaced. *)
Lemma createNode_keeps_owner s n plugin k :
  truthy (typeOwners s !! k) = true →
  typeOwners (state' (createNode s n plugin)) !! k = typeOwners s !! k.
Proof.
  intros Hk. unfold createNode.
  destruct (negb (nodeSchema _)); [done|].
  destruct (bool_decide (is_Some _)); [done|].
  destruct plugin as [p|]; [|done].
  set (k' := propertyKey _). cbn zeta.
  destruct (truthyProperty (getProperty (typeOwners s) k')) eqn:E;
    cbn [negb].
  - destruct (negb (isString _ _)); [done|]. by rewrite createNodeStored_state.
  - rewrite createNodeStored_state. simpl.
    apply lookup_insert_ne. intros ->.
    by rewrite (truthyProperty_own _ _ Hk) in E.
Qed.

(** Without a plugin the call produces no node action. *)
Lemma createNode_accepted_plugin s n plugin :
  accepted (outcome (createNode s n plugin)) = true → is_Some plugin.
Proof. createNode_cases. Qed.

(** A type recorded for another name blocks every call on that type. *)
Lemma createNode_foreign_type s n q :
  truthy (typeOwners s !! propertyKey (typeOf n)) = true →
  typeOwners s !! propertyKey (typeOf n) ≠ Some (name q) →
  accepted (outcome (createNode s n (Some q))) = false.
Proof.
  intros Ht Hne. unfold createNode. cbn zeta.
  rewrite stampedInternal_type, (truthyProperty_own _ _ Ht), isString_lookup.
  rewrite (bool_decide_false _ Hne).
  by repeat case_match.
Qed.

(** A call that produced a node action was made on an admissible record,
    and the registry records the caller for the record's type after it. *)
Lemma createNode_accepted_gates s n p :
  accepted (outcome (createNode s n (Some p))) = true →
  admissible nodeSchema (Some p) n
  ∧ typeOwners (state' (createNode s n (Some p))) !! propertyKey (typeOf n)
    = Some (name p).
Proof.
  unfold createNode, admissible. fold (stamp (Some p) n).
  rewrite stampedInternal_type.
  destruct (nodeSchema (stamp (Some p) n)); [|done].
  cbn [negb fields stamp setInternal].
  destruct (fields n) as [f|]; [by rewrite bool_decide_true|].
  rewrite bool_decide_false by (by intros [? ?]).
  cbn zeta. rewrite isString_lookup.
  destruct (truthyProperty _) eqn:Ht; cbn [negb].
  - destruct (bool_decide (typeOwners s !! _ = Some (name p))) eqn:E;
      cbn [negb]; [|done].
    rewrite createNodeStored_state. intros _. split; [done|].
    by apply bool_decide_eq_true in E.
  - rewrite createNodeStored_state. intros _. split; [done|].
    apply lookup_insert_eq.
Qed.

(** The outcome of a call on an admissible record, by the recorded owner
    of its type and the stored node of its id. *)
Lemma createNode_conflict s n q :
  admissible nodeSchema (Some q) n →
  truthy (typeOwners s !! propertyKey (typeOf n)) = true →
  typeOwners s !! propertyKey (typeOf n) ≠ Some (name q) →
  createNode s n (Some q)
  = {| state' := s; node' := stamp (Some q) n;
       outcome := Thrown OwnershipConflict |}.
Proof.
  intros [Hv Hf] Ht Hne. unfold createNode. fold (stamp (Some q) n).
  cbn zeta.
  rewrite Hv, stampedInternal_type, (truthyProperty_own _ _ Ht),
    isString_lookup, (bool_decide_false _ Hne).
  cbn [negb fields stamp setInternal]. rewrite Hf.
  by rewrite bool_decide_false by (by intros [? ?]).
Qed.

Lemma createNode_passes_type s n q :
  admissible nodeSchema (Some q) n →
  (truthyProperty (getProperty (typeOwners s) (propertyKey (typeOf n))) = false
   ∨ typeOwners s !! propertyKey (typeOf n) = Some (name q)) →
  ∃ s', nodes s' = nodes s
    ∧ (truthy (typeOwners s !! propertyKey (typeOf n)) = true → s' = s)
    ∧ createNode s n (Some q)
      = createNodeStored s' (stamp (Some q) n) (stampedInternal (Some q) n) q.
Proof.
  intros [Hv Hf] Ht. unfold createNode. fold (stamp (Some q) n).
  cbn zeta. rewrite Hv, stampedInternal_type, isString_lookup.
  cbn [negb fields stamp setInternal]. rewrite Hf.
  rewrite bool_decide_false by (by intros [? ?]).
  destruct (truthyProperty _) eqn:E; cbn [negb].
  - destruct Ht as [|Ht]; [done|].
    rewrite (bool_decide_true _ Ht). by exists s.
  - exists (setTypeOwner (propertyKey (typeOf n)) (name q) s).
    split; [done|]. split; [|done].
    intros Hown. by rewrite (truthyProperty_own _ _ Hown) in E.
Qed.

Lemma registryAfter_keeps_owner calls : ∀ reg k,
  truthy (reg !! k) = true →
  registryAfter nodeSchema reg calls !! k = reg !! k.
Proof.
  induction calls as [|c calls IH]; intros reg k Hk; [done|].
  cbn [registryAfter].
  assert (Hstep := createNode_keeps_owner
    {| typeOwners := reg; nodes := argNodes c |} (argNode c) (argPlugin c)
    k Hk).
  change (typeOwners {| typeOwners := reg; nodes := argNodes c |} !! k)
    with (reg !! k) in Hstep.
  rewrite IH; [done|]. by rewrite Hstep.
Qed.

(** C10. Every call of [createNode] with a plugin leaves the caller's node
    object with an [internal] object (created when it was missing) whose
    [owner] is the plugin's name, whatever the call goes on to do: the
    write happens before validation and before the ownership checks. *)
Theorem createNode_stamps_owner s n p :
  let r := createNode s n (Some p) in
  internal (node' r)
  = Some (setOwner (Some (name p)) (default emptyInternal (internal n)))
  ∧ ownerOf (node' r) = Some (name p)
  ∧ node' r = stamp (Some p) n.
Proof. intros r. unfold r. by rewrite createNode_node'. Qed.

(** C5 (amended). A record that sets [fields] and passes validation makes
    [createNode] throw the reserved-field error for every plugin, with
    the registry and the store as they were. Validation comes first: a
    record that sets [fields] and fails validation yields the
    [VALIDATION_ERROR] action. *)
Theorem createNode_reserved_fields s n plugin :
  is_Some (fields n) →
  createNode s n plugin
  = {| state' := s; node' := stamp plugin n;
       outcome := if nodeSchema (stamp plugin n)
                  then Thrown ReservedFieldViolation
                  else Returned VALIDATION_ERROR |}.
Proof.
  intros Hf. unfold createNode. fold (stamp plugin n).
  destruct (nodeSchema (stamp plugin n)); [|done].
  cbn [negb fields stamp setInternal]. by rewrite bool_decide_true.
Qed.

(** A record that fails validation yields the [VALIDATION_ERROR] action
    and leaves registry and store alone. *)
Lemma createNode_invalid s n plugin :
  nodeSchema (stamp plugin n) = false →
  createNode s n plugin
  = {| state' := s; node' := stamp plugin n;
       outcome := Returned VALIDATION_ERROR |}.
Proof. intros Hv. unfold createNode. fold (stamp plugin n). by rewrite Hv. Qed.

(** C1 (amended). A stored node is owned by [p]; another plugin [q] calls
    [createNode] with the node's id and an admissible record, whose type
    is not the name of an inherited member. The call throws and produces
    no action: the type-ownership error when the record's type is
    recorded for a name other than [q]'s, the node-ownership error
    otherwise. The store is not written, and the registry is as it was
    whenever the type had a recorded owner. *)
Theorem createNode_existing_other_plugin s n old oi p q :
  getNode s (id n) = Some old →
  internal old = Some oi →
  owner oi = Some (name p) →
  name q ≠ name p →
  admissible nodeSchema (Some q) n →
  propertyKey (typeOf n) ∉ inheritedNames →
  let r := createNode s n (Some q) in
  let t := typeOwners s !! propertyKey (typeOf n) in
  outcome r
  = Thrown (if truthy t && bool_decide (t ≠ Some (name q))
            then OwnershipConflict else OwnershipViolation)
  ∧ nodes (state' r) = nodes s
  ∧ (truthy t = true → state' r = s).
Proof.
  intros Hold Hi Ho Hpq Hadm Hplain r t. subst r.
  split; [|split]; [|apply createNode_nodes|].
  - destruct (truthy t && bool_decide (t ≠ Some (name q))) eqn:E.
    + apply andb_true_iff in E as [E1 E2]. apply bool_decide_eq_true in E2.
      by rewrite createNode_conflict.
    + destruct (createNode_passes_type s n q Hadm)
        as (s' & Hs' & _ & ->).
      { apply andb_false_iff in E as [E|E];
          [left; by rewrite truthyProperty_plain|right].
        apply bool_decide_eq_false in E. by apply dec_stable. }
      unfold createNodeStored, getNode. rewrite Hs'.
      unfold getNode in Hold. cbn [id stamp setInternal]. rewrite Hold, Hi.
      rewrite bool_decide_true; [done|]. rewrite Ho. congruence.
  - intros Ht. destruct (decide (t = Some (name q))) as [Heq|Hne].
    + destruct (createNode_passes_type s n q Hadm)
        as (s' & _ & Hs' & ->); [by right|].
      rewrite createNodeStored_state. by apply Hs'.
    + by rewrite createNode_conflict.
Qed.

(** The registry is written before the stored node's owner is looked at:
    a call that throws the node-ownership error on a type for which line
    217 found no owner leaves the caller recorded for that type. *)
Lemma createNode_claims_before_owner_check s n old oi p q :
  getNode s (id n) = Some old →
  internal old = Some oi →
  owner oi = Some (name p) →
  name q ≠ name p →
  admissible nodeSchema (Some q) n →
  truthyProperty (getProperty (typeOwners s) (propertyKey (typeOf n))) = false →
  outcome (createNode s n (Some q)) = Thrown OwnershipViolation
  ∧ typeOwners (state' (createNode s n (Some q))) !! propertyKey (typeOf n)
    = Some (name q).
Proof.
  intros Hold Hi Ho Hpq [Hv Hf] Ht. unfold createNode. cbn zeta.
  fold (stamp (Some q) n). rewrite Hv, stampedInternal_type, Ht.
  cbn [negb fields stamp setInternal]. rewrite Hf.
  rewrite bool_decide_false by (by intros [? ?]).
  rewrite createNodeStored_state. split; [|apply lookup_insert_eq].
  unfold createNodeStored.
  change (getNode (setTypeOwner ?k ?v s) (id (stamp ?pl n)))
    with (getNode s (id n)).
  rewrite Hold, Hi.
  rewrite bool_decide_true; [done|]. rewrite Ho. congruence.
Qed.

(** C4. A node of this id is stored and owned by the calling plugin, and
    the record reaches the lookup of line 242: it is admissible and the
    read of line 217 finds no owner of its type or the registry records
    the plugin for it, as it does for the record of a node the plugin
    created ([createNode_accepted_gates]). With the stored content digest
    the call returns [TOUCH_NODE], whose payload is the id alone; with
    another digest it returns [CREATE_NODE] with the whole record. The
    store is as before. *)
Theorem createNode_touch_or_create s n old oi p :
  getNode s (id n) = Some old →
  internal old = Some oi →
  owner oi = Some (name p) →
  admissible nodeSchema (Some p) n →
  (truthyProperty (getProperty (typeOwners s) (propertyKey (typeOf n))) = false
   ∨ typeOwners s !! propertyKey (typeOf n) = Some (name p)) →
  let r := createNode s n (Some p) in
  outcome r
  = (if bool_decide (contentDigest oi = digestOf n)
     then Returned (TOUCH_NODE (Some p) (id n))
     else Returned (CREATE_NODE (Some p) (stamp (Some p) n)))
  ∧ nodes (state' r) = nodes s.
Proof.
  intros Hold Hi Ho Hadm Ht r. subst r. split; [|apply createNode_nodes].
  destruct (createNode_passes_type s n p Hadm Ht)
    as (s' & Hs' & _ & ->).
  unfold createNodeStored, hasNodeChanged, getNode. rewrite Hs'.
  unfold getNode in Hold. cbn [id stamp setInternal]. rewrite Hold, Hi.
  rewrite bool_decide_false by (rewrite Ho; by intros ?).
  rewrite stampedInternal_digest, negb_involutive.
  assert (Hd : digestOf old = contentDigest oi)
    by (unfold digestOf; by rewrite Hi).
  rewrite (bool_decide_ext (digestOf old = digestOf n)
             (contentDigest oi = digestOf n)) by (by rewrite Hd).
  by destruct (bool_decide _).
Qed.

(** X18. [T] is not the name of an inherited member and no plugin owns it
    yet, and [p], whose name is not empty, calls [createNode] with an
    admissible record of type [T]. From that call on the registry records
    [p] for [T], through every later run of [createNode] calls; a later
    call by a plugin of another name with a record of type [T] never
    produces a node action, and it throws the type-ownership error,
    changing nothing, whenever its record is admissible. *)
Theorem type_owner_first_come_first_served (T : string) s n p :
  typeOf n = Some T →
  T ∉ inheritedNames →
  truthy (typeOwners s !! T) = false →
  name p ≠ "" →
  admissible nodeSchema (Some p) n →
  let reg1 := typeOwners (state' (createNode s n (Some p))) in
  reg1 !! T = Some (name p)
  ∧ ∀ calls,
      let reg2 := registryAfter nodeSchema reg1 calls in
      reg2 !! T = Some (name p)
      ∧ ∀ store n' q,
          typeOf n' = Some T →
          name q ≠ name p →
          let s2 := {| typeOwners := reg2; nodes := store |} in
          let r := createNode s2 n' (Some q) in
          accepted (outcome r) = false
          ∧ typeOwners (state' r) !! T = Some (name p)
          ∧ (admissible nodeSchema (Some q) n' →
             outcome r = Thrown OwnershipConflict ∧ state' r = s2).
Proof.
  intros HT Hplain Hfree Hp [Hv Hf] reg1.
  assert (Hreg1 : reg1 !! T = Some (name p)).
  { subst reg1. unfold createNode. fold (stamp (Some p) n). cbn zeta.
    rewrite Hv, stampedInternal_type, HT.
    change (propertyKey (Some T)) with T.
    cbn [negb fields stamp setInternal]. rewrite Hf.
    rewrite bool_decide_false by (by intros [? ?]).
    rewrite (truthyProperty_plain _ _ Hplain), Hfree. cbn [negb].
    rewrite createNodeStored_state. apply lookup_insert_eq. }
  split; [done|]. intros calls reg2.
  assert (Hreg2 : reg2 !! T = Some (name p)).
  { subst reg2. rewrite registryAfter_keeps_owner; [done|].
    rewrite Hreg1. by apply truthy_Some_ne. }
  split; [done|]. intros store n' q HT' Hq s2 r.
  assert (Htruthy : truthy (typeOwners s2 !! propertyKey (typeOf n')) = true).
  { rewrite HT'. cbn. rewrite Hreg2. by apply truthy_Some_ne. }
  assert (Hne : typeOwners s2 !! propertyKey (typeOf n') ≠ Some (name q)).
  { rewrite HT'. cbn. rewrite Hreg2. congruence. }
  split; [|split].
  - by apply createNode_foreign_type.
  - subst r. rewrite createNode_keeps_owner; [done|].
    cbn. rewrite Hreg2. by apply truthy_Some_ne.
  - intros Hadm. subst r. by rewrite createNode_conflict.
Qed.

End CreateNodeFacts.

(** ** createNodeField *)

Lemma fieldOwnerOf_lookup n i F :
  internal n = Some i → fieldOwnerOf n F = default ∅ (fieldOwners i) !! F.
Proof.
  intros Hi. unfold fieldOwnerOf. rewrite Hi. cbn.
  by destruct (fieldOwners i).
Qed.

(** [createNodeField] on a node with an [internal] object, with the
    defaults of lines 289-294 applied. *)
Lemma createNodeField_unfold n i F v plugin :
  internal n = Some i →
  createNodeField n F v plugin
  = let o := default ∅ (fieldOwners i) in
    let f := default ∅ (fields n) in
    let i1 := setFieldOwners (Some o) i in
    let n1 := setFields (Some f) (setInternal (Some i1) n) in
    match plugin with
    | None =>
        if truthyProperty (getProperty o F) then (n1, Thrown TypeError)
        else (setFields (Some (<[F := v]> f)) n1, Thrown TypeError)
    | Some p =>
        if truthyProperty (getProperty o F)
           && negb (isString (getProperty o F) (name p)) then
          (n1, Thrown FieldOwnershipConflict)
        else
          let n2 := setInternal (Some (setFieldOwners (Some (<[F := name p]> o)) i1))
                      (setFields (Some (<[F := v]> f)) n1) in
          (n2, Returned (ADD_FIELD_TO_NODE plugin n2))
    end.
Proof. intros Hi. unfold createNodeField. by rewrite Hi. Qed.

Lemma createNodeField_ready n F v plugin :
  is_Some (internal n) → fieldsReady (createNodeField n F v plugin).1.
Proof.
  intros [i Hi]. unfold createNodeField, fieldsReady. rewrite Hi.
  repeat case_match; cbn; (split; [done|]); eexists; (split; [done|]); done.
Qed.

Lemma createNodeField_keeps_owner n F v plugin F0 o :
  fieldOwnerOf n F0 = Some o → o ≠ "" →
  fieldOwnerOf (createNodeField n F v plugin).1 F0 = Some o.
Proof.
  intros Ho Hne.
  destruct (internal n) as [i|] eqn:Hi;
    [|by unfold fieldOwnerOf in Ho; rewrite Hi in Ho].
  rewrite (createNodeField_unfold _ _ _ _ _ Hi). cbn zeta.
  rewrite (fieldOwnerOf_lookup _ _ _ Hi) in Ho.
  destruct plugin as [q|].
  - destruct (truthyProperty _ && negb _) eqn:E; cbn; [done|].
    destruct (decide (F = F0)) as [->|Hne'].
    + rewrite lookup_insert_eq.
      rewrite (truthyProperty_own _ _ (eq_trans (f_equal truthy Ho)
                 (truthy_Some_ne _ Hne))) in E.
      rewrite isString_lookup in E. cbn [andb] in E.
      apply negb_false_iff, bool_decide_eq_true in E. congruence.
    + by rewrite lookup_insert_ne.
  - by destruct (truthyProperty _).
Qed.

Lemma nodeAfter_ready calls : ∀ n, fieldsReady n → fieldsReady (nodeAfter n calls).
Proof.
  induction calls as [|c calls IH]; intros n Hn; [done|].
  cbn [nodeAfter]. apply IH, createNodeField_ready.
  destruct Hn as (_ & i & -> & _). done.
Qed.

Lemma nodeAfter_keeps_owner calls : ∀ n F0 o,
  fieldOwnerOf n F0 = Some o → o ≠ "" →
  fieldOwnerOf (nodeAfter n calls) F0 = Some o.
Proof.
  induction calls as [|c calls IH]; intros n F0 o Ho Hne; [done|].
  cbn [nodeAfter]. by apply IH; [apply createNodeField_keeps_owner|].
Qed.

Lemma createNodeField_conflict n F v q o :
  fieldsReady n → fieldOwnerOf n F = Some o → o ≠ "" → o ≠ name q →
  createNodeField n F v (Some q) = (n, Thrown FieldOwnershipConflict).
Proof.
  intros (Hf & i & Hi & Hfo) Ho Hne Hq.
  rewrite (createNodeField_unfold _ _ _ _ _ Hi). cbn zeta.
  rewrite (fieldOwnerOf_lookup _ _ _ Hi) in Ho.
  rewrite (truthyProperty_own _ _ (eq_trans (f_equal truthy Ho)
             (truthy_Some_ne _ Hne))).
  rewrite isString_lookup, bool_decide_false by congruence.
  cbn [andb negb]. f_equal.
  destruct n as [? ? ? [f|] ?]; [|by destruct Hf].
  destruct i as [? ? ? [fo|] ? ?]; [|by destruct Hfo].
  cbn in *. by subst.
Qed.

(** A field that the read of line 297 finds no owner for is written by
    every plugin. *)
Lemma createNodeField_first_write n i F v p :
  internal n = Some i →
  F ∉ inheritedNames →
  truthy (fieldOwnerOf n F) = false →
  let r := createNodeField n F v (Some p) in
  r.2 = Returned (ADD_FIELD_TO_NODE (Some p) r.1)
  ∧ fieldOf r.1 F = Some v ∧ fieldOwnerOf r.1 F = Some (name p).
Proof.
  intros Hi Hplain Hfree r. subst r.
  rewrite (createNodeField_unfold _ _ _ _ _ Hi). cbn zeta.
  rewrite (fieldOwnerOf_lookup _ _ _ Hi) in Hfree.
  rewrite (truthyProperty_plain _ _ Hplain), Hfree. cbn.
  by rewrite !lookup_insert_eq.
Qed.

(** The first write of a field whose name is an inherited member's is
    refused for every plugin: line 297 reads the inherited member, which is
    no plugin's name. Nothing is written but the two empty objects of lines
    289-294. *)
Lemma createNodeField_inherited_name n i F v p :
  internal n = Some i →
  F ∈ inheritedNames →
  fieldOwnerOf n F = None →
  let r := createNodeField n F v (Some p) in
  r.2 = Thrown FieldOwnershipConflict
  ∧ fieldOf r.1 F = fieldOf n F ∧ fieldOwnerOf r.1 F = None.
Proof.
  intros Hi Hin Hnone r. subst r.
  rewrite (createNodeField_unfold _ _ _ _ _ Hi). cbn zeta.
  rewrite (fieldOwnerOf_lookup _ _ _ Hi) in Hnone.
  unfold getProperty. rewrite Hnone, (bool_decide_true _ Hin). cbn.
  split; [done|]. unfold fieldOf, fieldOwnerOf. cbn. rewrite Hnone.
  split; [|done]. by destruct (fields n).
Qed.

(** X19. [F] is not the name of an inherited member and nobody owns it on
    the node yet, and [p], whose name is not empty, calls
    [createNodeField] with [F]: the call returns [ADD_FIELD_TO_NODE] with
    the node, the field holds the value and [internal.fieldOwners[F]] is
    [p]'s name. After any run of later [createNodeField] calls on the
    node, the owner of [F] is still [p], and a call with [F] by a plugin
    of another name throws and leaves the node as it is. *)
Theorem createNodeField_first_writer_owns n F v p :
  is_Some (internal n) →
  F ∉ inheritedNames →
  truthy (fieldOwnerOf n F) = false →
  name p ≠ "" →
  let r := createNodeField n F v (Some p) in
  r.2 = Returned (ADD_FIELD_TO_NODE (Some p) r.1)
  ∧ fieldOf r.1 F = Some v
  ∧ fieldOwnerOf r.1 F = Some (name p)
  ∧ ∀ calls,
      let n2 := nodeAfter r.1 calls in
      fieldOwnerOf n2 F = Some (name p)
      ∧ ∀ q v',
          name q ≠ name p →
          createNodeField n2 F v' (Some q)
          = (n2, Thrown FieldOwnershipConflict).
Proof.
  intros [i Hi] Hplain Hfree Hp r.
  assert (Hready : fieldsReady r.1)
    by (apply createNodeField_ready; by eexists).
  destruct (createNodeField_first_write n i F v p Hi Hplain Hfree)
    as (Hout & Hval & Hown).
  repeat split; try done.
  - by apply nodeAfter_keeps_owner.
  - intros q v' Hq.
    apply createNodeField_conflict with (o := name p); try done.
    + by apply nodeAfter_ready.
    + by apply nodeAfter_keeps_owner.
Qed.

(** C3 (amended). What each mutating action creator checks:
    [createNode] on the id of a stored node produces a node action only
    for the plugin whose name is the stored node's [internal.owner];
    [deleteNode] and [deleteNodes] check nothing and return the deletion
    action for every plugin; [createNodeField] checks the owner of the
    field, not of the node, and adds a field nobody owns, whose name is
    not an inherited member's, for every plugin. *)
Theorem mutation_ownership_checks (nodeSchema : Node → bool) :
  (∀ s n plugin old,
     getNode s (id n) = Some old →
     accepted (outcome (createNode nodeSchema s n plugin)) = true →
     ∃ p, plugin = Some p ∧ ownerOf old = Some (name p))
  ∧ (∀ nodeId plugin, deleteNode nodeId plugin = Returned (DELETE_NODE plugin nodeId))
  ∧ (∀ nodeIds plugin,
       deleteNodes nodeIds plugin = Returned (DELETE_NODES plugin nodeIds))
  ∧ (∀ n F v p,
       is_Some (internal n) →
       F ∉ inheritedNames →
       truthy (fieldOwnerOf n F) = false →
       ∃ n', createNodeField n F v (Some p)
             = (n', Returned (ADD_FIELD_TO_NODE (Some p) n'))).
Proof.
  repeat split.
  - intros s n plugin old Hold Hacc.
    destruct plugin as [p|];
      [|by apply createNode_accepted_plugin in Hacc as [? ?]].
    exists p. split; [done|]. revert Hacc. unfold createNode. cbn zeta.
    destruct (negb (nodeSchema _)); [done|].
    destruct (bool_decide (is_Some _)); [done|].
    assert (Hstored : ∀ s' i, nodes s' = nodes s →
      accepted (outcome (createNodeStored s' (setInternal (Some i) n) i p)) = true →
      ownerOf old = Some (name p)).
    { intros s' i Hs'. unfold createNodeStored, getNode, ownerOf.
      rewrite Hs'. unfold getNode in Hold. cbn [id setInternal].
      rewrite Hold. destruct (internal old) as [oi|]; [|done].
      destruct (bool_decide (owner oi ≠ _)) eqn:E; [done|].
      intros _. apply bool_decide_eq_false in E. by apply dec_stable in E. }
    destruct (negb (truthyProperty _)); [by apply Hstored|].
    destruct (negb (isString _ _)); [done|]. by apply Hstored.
  - intros n F v p [i Hi] Hplain Hfree.
    destruct (createNodeField_first_write n i F v p Hi Hplain Hfree)
      as (Hout & _).
    destruct (createNodeField n F v (Some p)) as [n' o]. cbn in Hout.
    exists n'. by rewrite Hout.
Qed.

(** ** addNodeToParent *)

Lemma elem_of_baseUniq l : ∀ seen x,
  x ∈ Lodash.baseUniq seen l ↔ x ∈ l ∧ x ∉ seen.
Proof.
  induction l as [|y l IH]; intros seen x; cbn.
  - split; [by intros ?%elem_of_nil | by intros [?%elem_of_nil _]].
  - case_bool_decide as Hy.
    + rewrite IH, elem_of_cons. split; [tauto|].
      intros [[->|?] ?]; [done | by split].
    + rewrite !elem_of_cons, IH, elem_of_cons.
      destruct (decide (x = y)) as [->|]; [tauto|]. intuition congruence.
Qed.

Lemma NoDup_baseUniq l : ∀ seen, NoDup (Lodash.baseUniq seen l).
Proof.
  induction l as [|y l IH]; intros seen; cbn; [constructor|].
  case_bool_decide; [done|]. constructor; [|done].
  rewrite elem_of_baseUniq, elem_of_cons. intros [_ Hseen]. apply Hseen. by left.
Qed.

(** Pushing an element the list holds already, and then [uniq], gives the
    list back when it has no duplicates. *)
Lemma baseUniq_push_present l : ∀ seen c,
  NoDup l → (∀ x, x ∈ l → x ∉ seen) → c ∈ l ∨ c ∈ seen →
  Lodash.baseUniq seen (l ++ [c]) = l.
Proof.
  induction l as [|y l IH]; intros seen c Hnd Hfresh Hc; cbn.
  - destruct Hc as [?%elem_of_nil|Hc]; [done|]. by rewrite bool_decide_true.
  - apply NoDup_cons in Hnd as [Hy Hnd].
    rewrite bool_decide_false by (apply Hfresh; by left).
    f_equal. apply IH; [done| |].
    + intros x Hx [->|Hs]%elem_of_cons; [done|].
      by apply (Hfresh x); [right|].
    + rewrite elem_of_cons. rewrite elem_of_cons in Hc.
      tauto.
Qed.

(** C9. After [addNodeToParent], and after a second call with the same
    child, [parent.children] has no duplicates and holds the child's id
    exactly once; the second call leaves the list as the first made it. *)
Theorem addNodeToParent_twice_no_duplicates parentNode childNode plugin plugin' :
  let p1 := (addNodeToParent parentNode childNode plugin).1 in
  let p2 := (addNodeToParent p1 childNode plugin').1 in
  NoDup (children p1)
  ∧ NoDup (children p2)
  ∧ count_occ String.string_dec (children p2) (id childNode) = 1
  ∧ children p2 = children p1
  ∧ (addNodeToParent p1 childNode plugin').2
    = Returned (ADD_CHILD_NODE_TO_PARENT_NODE plugin' p2).
Proof.
  intros p1 p2.
  assert (H1 : NoDup (children p1)) by apply NoDup_baseUniq.
  assert (H2 : NoDup (children p2)) by apply NoDup_baseUniq.
  assert (Hin : id childNode ∈ children p1).
  { subst p1. cbn. unfold Lodash.uniq.
    rewrite elem_of_baseUniq, elem_of_app, list_elem_of_singleton.
    split; [by right | by intros ?%elem_of_nil]. }
  assert (Heq : children p2 = children p1).
  { subst p2. cbn [addNodeToParent fst children setChildren].
    unfold Lodash.uniq at 1.
    change (id (setChildren ?c ?n)) with (id n).
    apply baseUniq_push_present; [exact H1 | | left; exact Hin].
    by intros x _ ?%elem_of_nil. }
  repeat split; try done.
  rewrite Heq.
  apply (proj1 (NoDup_count_occ' String.string_dec (children p1))).
  - by apply NoDup_ListNoDup.
  - apply list_elem_of_In, Hin.
Qed.

(** ** createPage *)

Section CreatePageClaims.

Variable pageSchema : Page → bool.
Variable layoutComponentChunkName : string → string.
#[local] Abbreviation createPage :=
  (createPage pageSchema layoutComponentChunkName).
#[local] Abbreviation derivePage := (derivePage layoutComponentChunkName).

Lemma createPage_names page plugin :
  jsonName (createPage page plugin).1 = Some (pageNames (path page)).1
  ∧ internalComponentName (createPage page plugin).1
    = Some (pageNames (path page)).2.
Proof. unfold createPage. by destruct (negb (pageSchema _)). Qed.

(** A page that fails validation makes [createPage] return [undefined],
    after the derived properties were written into the caller's page
    object. *)
Lemma createPage_invalid page plugin :
  pageSchema (derivePage page) = false →
  createPage page plugin = (derivePage page, ReturnedUndefined).
Proof. intros Hv. unfold createPage. by rewrite Hv. Qed.

Lemma createPage_valid page plugin :
  pageSchema (derivePage page) = true →
  createPage page plugin
  = (setPath (normalizePath (path page)) (derivePage page),
     Returned (CREATE_PAGE plugin
                 (setPath (normalizePath (path page)) (derivePage page)))).
Proof. intros Hv. unfold createPage. by rewrite Hv. Qed.

(** C8. The derived names depend on the path alone ([pageNames]); for
    ["/"] they are ["index.json"] and ["ComponentIndex"], for
    ["/blog/my-post"] they are ["blog-my-post.json"] and
    ["ComponentBlogMyPost"]; a page with the path ["about"] that
    validates is returned in [CREATE_PAGE] with the path ["/about"]; and
    the payload of [CREATE_PAGE] is the page object with these names. *)
Theorem createPage_derived_keys page plugin :
  let root := createPage (setPath "/" page) plugin in
  let post := createPage (setPath "/blog/my-post" page) plugin in
  let about := createPage (setPath "about" page) plugin in
  (jsonName (createPage page plugin).1 = Some (pageNames (path page)).1
   ∧ internalComponentName (createPage page plugin).1
     = Some (pageNames (path page)).2)
  ∧ jsonName root.1 = Some "index.json"
  ∧ internalComponentName root.1 = Some "ComponentIndex"
  ∧ jsonName post.1 = Some "blog-my-post.json"
  ∧ internalComponentName post.1 = Some "ComponentBlogMyPost"
  ∧ (pageSchema (derivePage (setPath "about" page)) = true →
     path about.1 = "/about"
     ∧ about.2 = Returned (CREATE_PAGE plugin about.1))
  ∧ (pageSchema (derivePage page) = true →
     (createPage page plugin).2
     = Returned (CREATE_PAGE plugin (createPage page plugin).1)).
Proof.
  intros root post about. split; [apply createPage_names|].
  subst root post about.
  rewrite !(proj1 (createPage_names _ _)), !(proj2 (createPage_names _ _)).
  cbn [path setPath].
  do 4 (split; [by vm_compute|]).
  split; intros Hv; by rewrite (createPage_valid _ _ Hv).
Qed.

End CreatePageClaims.

(** ** Concrete runs *)

(** The caller's record carries the plugin's name after a call that failed
    validation and after a call that threw. *)
Example createNode_stamps_on_failure :
  outcome (createNode sampleNodeSchema emptyState nodeBad (Some pluginP))
  = Returned VALIDATION_ERROR
  ∧ ownerOf nodeBad = None
  ∧ ownerOf (node' (createNode sampleNodeSchema emptyState nodeBad (Some pluginP)))
    = Some (name pluginP)
  ∧ outcome (createNode sampleNodeSchema stateA nodeA2 (Some pluginQ))
    = Thrown OwnershipConflict
  ∧ ownerOf nodeA2 = None
  ∧ ownerOf (node' (createNode sampleNodeSchema stateA nodeA2 (Some pluginQ)))
    = Some (name pluginQ).
Proof. by vm_compute. Qed.

Example createdA_outcome :
  outcome createdA = Returned (CREATE_NODE (Some pluginP) (node' createdA))
  ∧ typeOwners stateA !! "File" = Some "gatsby-source-filesystem"
  ∧ getNode stateA "node-1" = Some (node' createdA)
  ∧ ownerOf (node' createdA) = Some "gatsby-source-filesystem".
Proof. by vm_compute. Qed.

(** C1, counterexample. [pluginP] created ["node-1"] of type ["File"].
    [pluginQ] calls [createNode] with that id, the same type and another
    digest: the call throws the type-ownership error, not the
    node-ownership error. With a type nobody owns the call throws the
    node-ownership error, and the registry has gained an entry. With a
    record that does not validate the call returns [VALIDATION_ERROR]. *)
Lemma createNode_other_plugin_counterexample :
  getNode stateA (id nodeA2) = Some (node' createdA)
  ∧ ownerOf (node' createdA) = Some (name pluginP)
  ∧ name pluginQ ≠ name pluginP
  ∧ digestOf nodeA2 ≠ digestOf (node' createdA)
  ∧ outcome (createNode sampleNodeSchema stateA nodeA2 (Some pluginQ))
    = Thrown OwnershipConflict
  ∧ outcome (createNode sampleNodeSchema stateA nodeA2 (Some pluginQ))
    ≠ Thrown OwnershipViolation
  ∧ getNode stateA (id nodeB) = Some (node' createdA)
  ∧ digestOf nodeB ≠ digestOf (node' createdA)
  ∧ outcome (createNode sampleNodeSchema stateA nodeB (Some pluginQ))
    = Thrown OwnershipViolation
  ∧ typeOwners stateA !! "Markdown" = None
  ∧ typeOwners (state' (createNode sampleNodeSchema stateA nodeB (Some pluginQ)))
      !! "Markdown" = Some (name pluginQ)
  ∧ state' (createNode sampleNodeSchema stateA nodeB (Some pluginQ)) ≠ stateA
  ∧ digestOf nodeA0 ≠ digestOf (node' createdA)
  ∧ outcome (createNode sampleNodeSchema stateA nodeA0 (Some pluginQ))
    = Returned VALIDATION_ERROR.
Proof.
  repeat split; by vm_compute.
Qed.

Lemma createNode_existing_other_plugin_witness :
  outcome (createNode sampleNodeSchema stateA nodeA2 (Some pluginQ))
  = Thrown OwnershipConflict
  ∧ nodes (state' (createNode sampleNodeSchema stateA nodeA2 (Some pluginQ)))
    = nodes stateA
  ∧ (truthy (typeOwners stateA !! propertyKey (typeOf nodeA2)) = true →
     state' (createNode sampleNodeSchema stateA nodeA2 (Some pluginQ)) = stateA).
Proof.
  apply (createNode_existing_other_plugin sampleNodeSchema stateA nodeA2
           (node' createdA)
           (setOwner (Some (name pluginP))
              (default emptyInternal (internal nodeA)))
           pluginP pluginQ).
  - by vm_compute.
  - by vm_compute.
  - by vm_compute.
  - by vm_compute.
  - split; by vm_compute.
  - not_inherited.
Defined.

(** C5, counterexample. The record sets [fields] and has an empty id, so
    it fails validation: [createNode] returns the [VALIDATION_ERROR] action
    and throws nothing. *)
Lemma invalid_record_with_fields_counterexample :
  is_Some (fields nodeBad)
  ∧ sampleNodeSchema (stamp (Some pluginP) nodeBad) = false
  ∧ outcome (createNode sampleNodeSchema emptyState nodeBad (Some pluginP))
    = Returned VALIDATION_ERROR
  ∧ outcome (createNode sampleNodeSchema emptyState nodeBad (Some pluginP))
    ≠ Thrown ReservedFieldViolation.
Proof.
  split; [by eexists|]. split; [by vm_compute|].
  split; [by vm_compute|]. by vm_compute.
Qed.

Lemma createNode_reserved_fields_witness :
  is_Some (fields nodeWithFields)
  ∧ createNode sampleNodeSchema emptyState nodeWithFields (Some pluginP)
    = {| state' := emptyState; node' := stamp (Some pluginP) nodeWithFields;
         outcome := Thrown ReservedFieldViolation |}.
Proof.
  assert (Hf : is_Some (fields nodeWithFields)) by (by eexists).
  split; [exact Hf|].
  exact (createNode_reserved_fields sampleNodeSchema emptyState nodeWithFields
           (Some pluginP) Hf).
Defined.

(** C3, counterexample. ["node-1"] is stored and owned by [pluginP];
    [pluginQ] deletes it and adds a field to it, and both calls return
    their action. *)
Lemma mutation_by_other_plugin_counterexample :
  getNode stateA "node-1" = Some (node' createdA)
  ∧ ownerOf (node' createdA) = Some (name pluginP)
  ∧ name pluginQ ≠ name pluginP
  ∧ deleteNode "node-1" (Some pluginQ)
    = Returned (DELETE_NODE (Some pluginQ) "node-1")
  ∧ deleteNodes ["node-1"] (Some pluginQ)
    = Returned (DELETE_NODES (Some pluginQ) ["node-1"])
  ∧ (createNodeField (node' createdA) "slug" "/a/" (Some pluginQ)).2
    = Returned (ADD_FIELD_TO_NODE (Some pluginQ)
        (createNodeField (node' createdA) "slug" "/a/" (Some pluginQ)).1)
  ∧ fieldOf (createNodeField (node' createdA) "slug" "/a/" (Some pluginQ)).1
      "slug" = Some "/a/".
Proof. repeat split; by vm_compute. Qed.

Lemma mutation_ownership_checks_witness :
  accepted (outcome (createNode sampleNodeSchema stateA nodeA2 (Some pluginP)))
  = true
  ∧ ∃ p, Some pluginP = Some p ∧ ownerOf (node' createdA) = Some (name p).
Proof.
  assert (Hacc : accepted
    (outcome (createNode sampleNodeSchema stateA nodeA2 (Some pluginP))) = true)
    by (by vm_compute).
  split; [exact Hacc|].
  apply (proj1 (mutation_ownership_checks sampleNodeSchema)
           stateA nodeA2 (Some pluginP) (node' createdA)).
  - by vm_compute.
  - exact Hacc.
Defined.

(** C4, witness. [pluginP] created [nodeA]; the same record again is a
    touch, the record with another digest is a create. *)
Lemma createNode_touch_or_create_witness :
  (outcome (createNode sampleNodeSchema stateA nodeA (Some pluginP))
   = Returned (TOUCH_NODE (Some pluginP) "node-1")
   ∧ nodes (state' (createNode sampleNodeSchema stateA nodeA (Some pluginP)))
     = nodes stateA)
  ∧ (outcome (createNode sampleNodeSchema stateA nodeA2 (Some pluginP))
     = Returned (CREATE_NODE (Some pluginP) (stamp (Some pluginP) nodeA2))
     ∧ nodes (state' (createNode sampleNodeSchema stateA nodeA2 (Some pluginP)))
       = nodes stateA).
Proof.
  assert (Hold : getNode stateA "node-1" = Some (node' createdA))
    by (by vm_compute).
  assert (Hi : internal (node' createdA)
               = Some (setOwner (Some (name pluginP))
                         (default emptyInternal (internal nodeA))))
    by (by vm_compute).
  assert (Ho : owner (setOwner (Some (name pluginP))
                        (default emptyInternal (internal nodeA)))
               = Some (name pluginP))
    by (by vm_compute).
  split.
  - exact (createNode_touch_or_create sampleNodeSchema stateA nodeA _ _ pluginP
             Hold Hi Ho
             (conj (eq_refl : sampleNodeSchema (stamp (Some pluginP) nodeA) = true)
                   eq_refl)
             (or_intror (eq_refl : typeOwners stateA !! "File"
                                   = Some (name pluginP)))).
  - exact (createNode_touch_or_create sampleNodeSchema stateA nodeA2 _ _ pluginP
             Hold Hi Ho
             (conj (eq_refl : sampleNodeSchema (stamp (Some pluginP) nodeA2) = true)
                   eq_refl)
             (or_intror (eq_refl : typeOwners stateA !! "File"
                                   = Some (name pluginP)))).
Defined.

(** A type whose name is an inherited member's and has no registry entry
    is refused to every plugin: line 217 reads the inherited member, which
    is truthy, and line 220 finds it different from the plugin's name.
    Nothing is recorded. *)
Lemma createNode_inherited_type (nodeSchema : Node → bool) s n p :
  admissible nodeSchema (Some p) n →
  propertyKey (typeOf n) ∈ inheritedNames →
  typeOwners s !! propertyKey (typeOf n) = None →
  createNode nodeSchema s n (Some p)
  = {| state' := s; node' := stamp (Some p) n;
       outcome := Thrown OwnershipConflict |}.
Proof.
  intros [Hv Hf] Hin Hnone. unfold createNode. fold (stamp (Some p) n).
  cbn zeta. rewrite Hv, stampedInternal_type.
  cbn [negb fields stamp setInternal]. rewrite Hf.
  rewrite bool_decide_false by (by intros [? ?]).
  unfold getProperty. rewrite Hnone, (bool_decide_true _ Hin). done.
Qed.

(** C2, at a failing input. The registry is empty and [pluginP] is the
    first plugin to call [createNode] with a record of type
    ["constructor"], which validates and sets no [fields]: the call throws
    the type-ownership error, and no owner is recorded for the type. *)
Theorem createNode_type_constructor_refused :
  typeOf nodeCtor = Some "constructor"
  ∧ typeOwners emptyState = ∅
  ∧ admissible sampleNodeSchema (Some pluginP) nodeCtor
  ∧ createNode sampleNodeSchema emptyState nodeCtor (Some pluginP)
    = {| state' := emptyState; node' := stamp (Some pluginP) nodeCtor;
         outcome := Thrown OwnershipConflict |}
  ∧ typeOwners
      (state' (createNode sampleNodeSchema emptyState nodeCtor (Some pluginP)))
      !! "constructor" = None.
Proof.
  assert (Hadm : admissible sampleNodeSchema (Some pluginP) nodeCtor)
    by (split; by vm_compute).
  assert (Hin : propertyKey (typeOf nodeCtor) ∈ inheritedNames)
    by (apply (bool_decide_unpack _); by vm_compute).
  split; [done|]. split; [done|]. split; [exact Hadm|].
  rewrite (createNode_inherited_type sampleNodeSchema emptyState nodeCtor
             pluginP Hadm Hin eq_refl).
  by split.
Qed.

(** C6, at a failing input. Nobody owns the field ["constructor"] on the
    node, and [pluginQ] is the first plugin to call [createNodeField] with
    it: the call throws the field-ownership error, the field is not set
    and no owner is recorded. *)
Theorem createNodeField_constructor_refused :
  is_Some (internal (node' createdA))
  ∧ fieldOwnerOf (node' createdA) "constructor" = None
  ∧ (let r := createNodeField (node' createdA) "constructor" "x"
                (Some pluginQ) in
     r.2 = Thrown FieldOwnershipConflict
     ∧ fieldOf r.1 "constructor" = None
     ∧ fieldOwnerOf r.1 "constructor" = None).
Proof.
  split; [by eexists|]. split; [done|].
  assert (Hin : "constructor" ∈ inheritedNames)
    by (apply (bool_decide_unpack _); by vm_compute).
  exact (createNodeField_inherited_name (node' createdA) _ "constructor" "x"
           pluginQ eq_refl Hin eq_refl).
Qed.

Lemma type_owner_first_come_first_served_witness :
  typeOf nodeA = Some "File"
  ∧ ("File" ∉ inheritedNames)
  ∧ truthy (typeOwners emptyState !! "File") = false
  ∧ name pluginP ≠ ""
  ∧ admissible sampleNodeSchema (Some pluginP) nodeA
  ∧ (let reg1 := typeOwners (state' createdA) in
     reg1 !! "File" = Some (name pluginP)
     ∧ ∀ calls,
         let reg2 := registryAfter sampleNodeSchema reg1 calls in
         reg2 !! "File" = Some (name pluginP)
         ∧ ∀ store n' q,
             typeOf n' = Some "File" →
             name q ≠ name pluginP →
             let s2 := {| typeOwners := reg2; nodes := store |} in
             let r := createNode sampleNodeSchema s2 n' (Some q) in
             accepted (outcome r) = false
             ∧ typeOwners (state' r) !! "File" = Some (name pluginP)
             ∧ (admissible sampleNodeSchema (Some q) n' →
                outcome r = Thrown OwnershipConflict ∧ state' r = s2)).
Proof.
  assert (Hp : name pluginP ≠ "") by (by vm_compute).
  assert (Hadm : admissible sampleNodeSchema (Some pluginP) nodeA)
    by (split; by vm_compute).
  assert (Hplain : "File" ∉ inheritedNames) by not_inherited.
  split; [by vm_compute|]. split; [exact Hplain|]. split; [by vm_compute|].
  split; [exact Hp|]. split; [exact Hadm|].
  exact (type_owner_first_come_first_served sampleNodeSchema "File"
           emptyState nodeA pluginP eq_refl Hplain eq_refl Hp Hadm).
Defined.

(** After [pluginP]'s claim, [pluginQ] creates a node of another type, and
    is then refused on type ["File"]. *)
Example type_owner_run :
  let reg := registryAfter sampleNodeSchema (typeOwners (state' createdA))
               [ {| argNodes := nodes stateA;
                    argNode := mkNode "node-2" "Markdown" "digest-3";
                    argPlugin := Some pluginQ |} ] in
  reg !! "File" = Some (name pluginP)
  ∧ reg !! "Markdown" = Some (name pluginQ)
  ∧ outcome (createNode sampleNodeSchema
               {| typeOwners := reg; nodes := nodes stateA |}
               (mkNode "node-3" "File" "digest-4") (Some pluginQ))
    = Thrown OwnershipConflict.
Proof. by vm_compute. Qed.

Lemma createNodeField_first_writer_owns_witness :
  is_Some (internal (node' createdA))
  ∧ ("slug" ∉ inheritedNames)
  ∧ truthy (fieldOwnerOf (node' createdA) "slug") = false
  ∧ name pluginQ ≠ ""
  ∧ (let r := createNodeField (node' createdA) "slug" "/a/" (Some pluginQ) in
     r.2 = Returned (ADD_FIELD_TO_NODE (Some pluginQ) r.1)
     ∧ fieldOf r.1 "slug" = Some "/a/"
     ∧ fieldOwnerOf r.1 "slug" = Some (name pluginQ)
     ∧ ∀ calls,
         let n2 := nodeAfter r.1 calls in
         fieldOwnerOf n2 "slug" = Some (name pluginQ)
         ∧ ∀ q v',
             name q ≠ name pluginQ →
             createNodeField n2 "slug" v' (Some q)
             = (n2, Thrown FieldOwnershipConflict)).
Proof.
  assert (Hi : is_Some (internal (node' createdA))) by (by eexists).
  assert (Hq : name pluginQ ≠ "") by (by vm_compute).
  assert (Hplain : "slug" ∉ inheritedNames) by not_inherited.
  split; [exact Hi|]. split; [exact Hplain|]. split; [by vm_compute|].
  split; [exact Hq|].
  exact (createNodeField_first_writer_owns (node' createdA) "slug" "/a/"
           pluginQ Hi Hplain eq_refl Hq).
Defined.

(** [pluginQ] sets ["slug"], [pluginP] sets another field, and is then
    refused on ["slug"]. *)
Example createNodeField_run :
  let n1 := (createNodeField (node' createdA) "slug" "/a/" (Some pluginQ)).1 in
  let n2 := (createNodeField n1 "draft" "no" (Some pluginP)).1 in
  fieldOwnerOf n2 "slug" = Some (name pluginQ)
  ∧ fieldOwnerOf n2 "draft" = Some (name pluginP)
  ∧ createNodeField n2 "slug" "/b/" (Some pluginP)
    = (n2, Thrown FieldOwnershipConflict)
  ∧ fieldOf n2 "slug" = Some "/a/".
Proof. by vm_compute. Qed.

Lemma createPage_derived_keys_witness :
  samplePageSchema (derivePage sampleChunkName (setPath "about" pageAbout)) = true
  ∧ path (createPage samplePageSchema sampleChunkName
            (setPath "about" pageAbout) (Some pluginP)).1 = "/about"
  ∧ (createPage samplePageSchema sampleChunkName
       (setPath "about" pageAbout) (Some pluginP)).2
    = Returned (CREATE_PAGE (Some pluginP)
        (createPage samplePageSchema sampleChunkName
           (setPath "about" pageAbout) (Some pluginP)).1).
Proof.
  assert (Hv : samplePageSchema
                 (derivePage sampleChunkName (setPath "about" pageAbout)) = true)
    by (by vm_compute).
  split; [exact Hv|].
  exact (proj1 (proj2 (proj2 (proj2 (proj2 (proj2
           (createPage_derived_keys samplePageSchema sampleChunkName
              pageAbout (Some pluginP))))))) Hv).
Defined.

Example createPage_about :
  createPage samplePageSchema sampleChunkName pageAbout (Some pluginP)
  = ({| path := "/about"; component := "/site/src/pages/about.js";
        context := Some ∅;
        componentChunkName := Some "component---site-src-pages-about-js";
        jsonName := Some "about.json";
        internalComponentName := Some "ComponentAbout" |},
     Returned (CREATE_PAGE (Some pluginP)
       {| path := "/about"; component := "/site/src/pages/about.js";
          context := Some ∅;
          componentChunkName := Some "component---site-src-pages-about-js";
          jsonName := Some "about.json";
          internalComponentName := Some "ComponentAbout" |})).
Proof. by vm_compute. Qed.

(** C7, at a failing input. The page has an empty path and fails
    validation: [createPage] returns [undefined], no action and no error
    object, and the caller's page object holds the derived properties.
    [createNode] on a record that fails validation returns the
    [VALIDATION_ERROR] action, and the caller's node object is stamped. *)
Theorem validation_failure_outcomes :
  samplePageSchema (derivePage sampleChunkName pageBad) = false
  ∧ (createPage samplePageSchema sampleChunkName pageBad (Some pluginP)).2
    = ReturnedUndefined
  ∧ (createPage samplePageSchema sampleChunkName pageBad (Some pluginP)).1
    = {| path := ""; component := "/site/src/templates/post.js";
         context := Some ∅;
         componentChunkName := Some "component---site-src-templates-post-js";
         jsonName := Some "index.json";
         internalComponentName := Some "ComponentIndex" |}
  ∧ sampleNodeSchema (stamp (Some pluginP) (mkNode "" "File" "digest-1")) = false
  ∧ createNode sampleNodeSchema emptyState (mkNode "" "File" "digest-1")
      (Some pluginP)
    = {| state' := emptyState;
         node' := stamp (Some pluginP) (mkNode "" "File" "digest-1");
         outcome := Returned VALIDATION_ERROR |}
  ∧ stamp (Some pluginP) (mkNode "" "File" "digest-1")
    ≠ mkNode "" "File" "digest-1".
Proof. repeat split; by vm_compute. Qed.

(** * Further properties *)

(** ** createNode *)

Section CreateNodeFurther.

Variable nodeSchema : Node → bool.
#[local] Abbreviation createNode := (createNode nodeSchema).

(** One call changes at most the registry entry of the record's type, and
    only from no owner to the caller's name. *)
Lemma createNode_registry_step s n plugin k :
  typeOwners (state' (createNode s n plugin)) !! k = typeOwners s !! k
  ∨ (k = propertyKey (typeOf n)
     ∧ truthy (typeOwners s !! k) = false
     ∧ ∃ p, plugin = Some p
         ∧ typeOwners (state' (createNode s n plugin)) !! k = Some (name p)).
Proof.
  unfold createNode. cbn zeta. rewrite stampedInternal_type.
  destruct (negb (nodeSchema _)); [by left|].
  destruct (bool_decide (is_Some _)); [by left|].
  destruct plugin as [p|]; [|by left].
  destruct (truthyProperty
              (getProperty (typeOwners s) (propertyKey (typeOf n)))) eqn:Ht;
    cbn [negb].
  - left. destruct (negb (isString _ _)); [done|].
    by rewrite createNodeStored_state.
  - rewrite createNodeStored_state. cbn [typeOwners setTypeOwner].
    destruct (decide (k = propertyKey (typeOf n))) as [->|Hk].
    + right. split; [done|]. split; [by apply truthyProperty_false|].
      exists p. split; [done|]. apply lookup_insert_eq.
    + left. by apply lookup_insert_ne.
Qed.

(** X1. Called without a plugin on a record that passes validation and
    sets no [fields], [createNode] throws at the read of [plugin.name]
    (line 220): no action, and the registry and the store as they were. *)
Theorem createNode_without_plugin s n :
  admissible nodeSchema None n →
  createNode s n None
  = {| state' := s; node' := stamp None n; outcome := Thrown TypeError |}.
Proof.
  intros [Hv Hf]. unfold createNode. fold (stamp None n). rewrite Hv.
  cbn [negb fields stamp setInternal]. rewrite Hf.
  by rewrite bool_decide_false by (by intros [? ?]).
Qed.

(** X2. An [internal.owner] the caller wrote into the record has no
    effect: line 183 overwrites it with the plugin's name before anything
    reads it, so the call leaves the same registry, caller's object and
    outcome as for the record without it. *)
Theorem createNode_ignores_preset_owner s n o p :
  createNode s (presetOwner o n) (Some p) = createNode s n (Some p).
Proof.
  unfold createNode.
  assert (Hi : stampedInternal (Some p) (presetOwner o n)
               = stampedInternal (Some p) n) by done.
  rewrite Hi.
  by change (setInternal ?i (presetOwner o n)) with (setInternal i n).
Qed.

(** X3. Over any run of [createNode] calls, with any stores: a registry
    entry is never removed, an entry with a non-empty owner never changes,
    and an entry that did change holds the name of a plugin that made one
    of the calls with a record of that type. *)
Theorem registryAfter_frame calls : ∀ reg k,
  let reg' := registryAfter nodeSchema reg calls in
  (is_Some (reg !! k) → is_Some (reg' !! k))
  ∧ (truthy (reg !! k) = true → reg' !! k = reg !! k)
  ∧ (reg' !! k = reg !! k
     ∨ ∃ c p, c ∈ calls ∧ argPlugin c = Some p
         ∧ propertyKey (typeOf (argNode c)) = k
         ∧ reg' !! k = Some (name p)).
Proof.
  induction calls as [|c calls IH]; intros reg k reg'.
  { split; [done|]. split; [done|]. by left. }
  subst reg'. cbn [registryAfter].
  set (s := {| typeOwners := reg; nodes := argNodes c |}).
  set (reg1 := typeOwners (state' (createNode s (argNode c) (argPlugin c)))).
  destruct (IH reg1 k) as (IH1 & IH2 & IH3).
  pose proof (createNode_registry_step s (argNode c) (argPlugin c) k) as Hstep.
  fold reg1 in Hstep. change (typeOwners s !! k) with (reg !! k) in Hstep.
  split; [|split].
  - intros Hsome. apply IH1.
    destruct Hstep as [->|(_ & _ & p & _ & ->)]; [done|by eexists].
  - intros Ht. destruct Hstep as [Hstep|(_ & Hf & _)]; [|congruence].
    rewrite IH2; [done|]. by rewrite Hstep.
  - destruct IH3 as [IH3|(c' & p & Hc' & Hp & Hk & Hv)].
    + destruct Hstep as [Hstep|(Hk & _ & p & Hp & Hv)].
      * left. by rewrite IH3.
      * right. exists c, p. split; [by left|]. by rewrite IH3.
    + right. exists c', p. split; [by right|]. done.
Qed.

(** X4. The type is claimed when the record has passed the two gates,
    whatever the rest of the call does: for a record that validates and
    sets no [fields], of a type that has no recorded owner and is not the
    name of an inherited member, the registry after the call is the
    registry with the caller recorded for that type, also when the call
    goes on to throw at the node-owner check. *)
Theorem createNode_claims_type_at_gate s n q :
  admissible nodeSchema (Some q) n →
  propertyKey (typeOf n) ∉ inheritedNames →
  truthy (typeOwners s !! propertyKey (typeOf n)) = false →
  state' (createNode s n (Some q))
  = setTypeOwner (propertyKey (typeOf n)) (name q) s.
Proof.
  intros [Hv Hf] Hplain Ht. unfold createNode. fold (stamp (Some q) n).
  cbn zeta.
  rewrite Hv, stampedInternal_type, (truthyProperty_plain _ _ Hplain), Ht.
  cbn [negb fields stamp setInternal]. rewrite Hf.
  rewrite bool_decide_false by (by intros [? ?]).
  apply createNodeStored_state.
Qed.

(** X5. Every node action comes from a call with a plugin on a record
    that validates and sets no [fields]; after it the registry records
    the plugin for the record's type, the caller's object carries the
    plugin's name, and the action is [CREATE_NODE] with that object or
    [TOUCH_NODE] with its id. *)
Theorem createNode_action_invariant s n plugin :
  accepted (outcome (createNode s n plugin)) = true →
  ∃ p, plugin = Some p
    ∧ admissible nodeSchema (Some p) n
    ∧ typeOwners (state' (createNode s n plugin)) !! propertyKey (typeOf n)
      = Some (name p)
    ∧ ownerOf (node' (createNode s n plugin)) = Some (name p)
    ∧ (outcome (createNode s n plugin)
       = Returned (CREATE_NODE (Some p) (stamp (Some p) n))
       ∨ outcome (createNode s n plugin)
         = Returned (TOUCH_NODE (Some p) (id n))).
Proof.
  intros Hacc.
  destruct (createNode_accepted_plugin nodeSchema s n plugin Hacc)
    as [p ->].
  exists p. split; [done|].
  destruct (createNode_accepted_gates nodeSchema s n p Hacc) as [Hadm Hreg].
  split; [done|]. split; [done|].
  split; [by rewrite createNode_node'|].
  revert Hacc. unfold createNode, createNodeStored.
  repeat case_match; cbn; try done; auto.
Qed.

(** X6. [TOUCH_NODE] is returned only for the id of a stored node that the
    caller owns and whose stored digest is the record's; [CREATE_NODE] is
    returned only when no node of that id is stored or the stored digest
    differs. *)
Theorem createNode_touch_only_stored s n plugin :
  (∀ pl i,
     outcome (createNode s n plugin) = Returned (TOUCH_NODE pl i) →
     i = id n
     ∧ ∃ old p, getNode s (id n) = Some old
         ∧ plugin = Some p
         ∧ ownerOf old = Some (name p)
         ∧ digestOf old = digestOf n)
  ∧ (∀ pl payload,
       outcome (createNode s n plugin) = Returned (CREATE_NODE pl payload) →
       payload = stamp plugin n
       ∧ (getNode s (id n) = None
          ∨ ∃ old, getNode s (id n) = Some old ∧ digestOf old ≠ digestOf n)).
Proof.
  assert (Hstored : ∀ s' i p, nodes s' = nodes s →
    (∀ pl j, outcome (createNodeStored s' (setInternal (Some i) n) i p)
             = Returned (TOUCH_NODE pl j) →
       j = id n
       ∧ ∃ old, getNode s (id n) = Some old
           ∧ ownerOf old = Some (name p)
           ∧ digestOf old = contentDigest i)
    ∧ (∀ pl payload,
         outcome (createNodeStored s' (setInternal (Some i) n) i p)
         = Returned (CREATE_NODE pl payload) →
         payload = setInternal (Some i) n
         ∧ (getNode s (id n) = None
            ∨ ∃ old, getNode s (id n) = Some old
                ∧ digestOf old ≠ contentDigest i))).
  { intros s' i p Hs'. unfold createNodeStored, hasNodeChanged, getNode.
    rewrite Hs'. cbn [id setInternal].
    destruct (nodes s !! id n) as [old|] eqn:Hold.
    - assert (Hobs : ∀ oi, internal old = Some oi →
        ownerOf old = owner oi ∧ digestOf old = contentDigest oi).
      { intros oi Hoi. unfold ownerOf, digestOf. by rewrite Hoi. }
      destruct (internal old) as [oi|] eqn:Hoi; [|by split].
      destruct (Hobs oi eq_refl) as [Hown Hdig].
      destruct (bool_decide (owner oi ≠ _)) eqn:Eo; [by split|].
      apply bool_decide_eq_false in Eo. apply dec_stable in Eo.
      rewrite negb_involutive.
      assert (Hbd : bool_decide (digestOf old = contentDigest i)
                    = bool_decide (contentDigest oi = contentDigest i))
        by (apply bool_decide_ext; by rewrite Hdig).
      rewrite Hbd.
      destruct (bool_decide (contentDigest oi = contentDigest i)) eqn:Ed;
        cbn [outcome].
      + apply bool_decide_eq_true in Ed. split; [|done].
        intros pl j [= _ <-]. split; [done|]. exists old.
        rewrite Hown, Hdig. done.
      + apply bool_decide_eq_false in Ed. split; [done|].
        intros pl payload [= _ <-]. split; [done|]. right. exists old.
        rewrite Hdig. done.
    - split; [done|]. intros pl payload [= _ <-]. split; [done|]. by left. }
  unfold createNode. fold (stamp plugin n).
  rewrite <- (stampedInternal_digest plugin n).
  destruct (negb (nodeSchema _)); [by split|].
  destruct (bool_decide (is_Some _)); [by split|].
  destruct plugin as [p|]; [|by split].
  assert (Hcase : ∀ s', nodes s' = nodes s →
    (∀ pl i,
       outcome (createNodeStored s' (stamp (Some p) n)
                  (stampedInternal (Some p) n) p)
       = Returned (TOUCH_NODE pl i) →
       i = id n
       ∧ ∃ old p0, getNode s (id n) = Some old ∧ Some p = Some p0
           ∧ ownerOf old = Some (name p0)
           ∧ digestOf old = contentDigest (stampedInternal (Some p) n))
    ∧ (∀ pl payload,
         outcome (createNodeStored s' (stamp (Some p) n)
                    (stampedInternal (Some p) n) p)
         = Returned (CREATE_NODE pl payload) →
         payload = stamp (Some p) n
         ∧ (getNode s (id n) = None
            ∨ ∃ old, getNode s (id n) = Some old
                ∧ digestOf old ≠ contentDigest (stampedInternal (Some p) n)))).
  { intros s' Hs'.
    destruct (Hstored s' (stampedInternal (Some p) n) p Hs') as [H1 H2].
    split; [|exact H2].
    intros pl i Hout. destruct (H1 pl i Hout) as (-> & old & ? & ? & ?).
    split; [done|]. by exists old, p. }
  cbn zeta. destruct (negb (truthyProperty _)); [by apply Hcase|].
  destruct (negb (isString _ _)); [by split|]. by apply Hcase.
Qed.

(** X7. A record whose id is not stored, that validates and sets no
    [fields], and whose type is not the name of an inherited member and
    is not recorded for another plugin, is created: the call returns
    [CREATE_NODE] with the caller's object, stamped with the plugin's
    name, and the registry records the plugin for the type. *)
Theorem createNode_fresh_id s n p :
  getNode s (id n) = None →
  admissible nodeSchema (Some p) n →
  propertyKey (typeOf n) ∉ inheritedNames →
  (truthy (typeOwners s !! propertyKey (typeOf n)) = false
   ∨ typeOwners s !! propertyKey (typeOf n) = Some (name p)) →
  outcome (createNode s n (Some p))
  = Returned (CREATE_NODE (Some p) (stamp (Some p) n))
  ∧ typeOwners (state' (createNode s n (Some p))) !! propertyKey (typeOf n)
    = Some (name p)
  ∧ nodes (state' (createNode s n (Some p))) = nodes s.
Proof.
  intros Hnew Hadm Hplain Ht.
  assert (Hout : outcome (createNode s n (Some p))
                 = Returned (CREATE_NODE (Some p) (stamp (Some p) n))).
  { destruct (createNode_passes_type nodeSchema s n p Hadm)
      as (s' & Hs' & _ & ->).
    { destruct Ht as [Ht|Ht]; [left|by right].
      by rewrite truthyProperty_plain. }
    unfold createNodeStored, getNode. rewrite Hs'.
    unfold getNode in Hnew. cbn [id stamp setInternal]. by rewrite Hnew. }
  split; [done|]. split; [|apply createNode_nodes].
  apply createNode_accepted_gates. by rewrite Hout.
Qed.

(** X8. [createNode] returns [VALIDATION_ERROR] exactly when the stamped
    record fails validation, and throws the reserved-field error exactly
    when the stamped record validates and [fields] is set; in both cases
    the registry and the store are as they were. *)
Theorem createNode_gate_outcomes s n plugin :
  (outcome (createNode s n plugin) = Returned VALIDATION_ERROR
   ↔ nodeSchema (stamp plugin n) = false)
  ∧ (outcome (createNode s n plugin) = Thrown ReservedFieldViolation
     ↔ nodeSchema (stamp plugin n) = true ∧ is_Some (fields n))
  ∧ (outcome (createNode s n plugin) = Returned VALIDATION_ERROR
     ∨ outcome (createNode s n plugin) = Thrown ReservedFieldViolation →
     state' (createNode s n plugin) = s).
Proof.
  unfold createNode, createNodeStored. fold (stamp plugin n).
  destruct (nodeSchema (stamp plugin n)) eqn:Hv; cbn [negb].
  2: { split; [done|]. split; [|done]. split; [done|]. by intros [? _]. }
  cbn [fields stamp setInternal].
  destruct (fields n) as [f|] eqn:Hf.
  { rewrite bool_decide_true by (by eexists). cbn.
    split; [done|]. split; [|done]. split; [|done]. intros _.
    split; [done|]. by eexists. }
  rewrite bool_decide_false by (by intros [? ?]).
  assert (Hnone : ¬ (true = true ∧ is_Some (@None (gmap string Value))))
    by (by intros [_ [? ?]]).
  repeat case_match; cbn;
    (split; [done|]); (split; [by split|]); by intros [|].
Qed.

End CreateNodeFurther.


(** ** createNodeField *)

(** What [createNodeField] leaves in the node for another field name, and
    in the properties it does not write. *)
Lemma createNodeField_other n F v plugin F' :
  F' ≠ F →
  fieldOf (createNodeField n F v plugin).1 F' = fieldOf n F'
  ∧ fieldOwnerOf (createNodeField n F v plugin).1 F' = fieldOwnerOf n F'.
Proof.
  intros Hne. destruct (internal n) as [i|] eqn:Hi.
  2: { unfold createNodeField. by rewrite Hi. }
  rewrite (createNodeField_unfold _ _ _ _ _ Hi). cbn zeta.
  unfold fieldOf, fieldOwnerOf. rewrite Hi.
  destruct plugin as [p|]; repeat case_match; cbn;
    rewrite ?lookup_insert_ne by done;
    by destruct (fields n), (fieldOwners i).
Qed.

(** X9. The owner of a field may write it again: when
    [internal.fieldOwners[F]] is the calling plugin's name, the call
    returns [ADD_FIELD_TO_NODE] with the node, the field holds the new
    value and the owner is as before. *)
Theorem createNodeField_owner_updates n F v p :
  fieldOwnerOf n F = Some (name p) →
  let r := createNodeField n F v (Some p) in
  r.2 = Returned (ADD_FIELD_TO_NODE (Some p) r.1)
  ∧ fieldOf r.1 F = Some v
  ∧ fieldOwnerOf r.1 F = Some (name p).
Proof.
  intros Ho r. subst r.
  destruct (internal n) as [i|] eqn:Hi;
    [|by unfold fieldOwnerOf in Ho; rewrite Hi in Ho].
  rewrite (createNodeField_unfold _ _ _ _ _ Hi). cbn zeta.
  rewrite (fieldOwnerOf_lookup _ _ _ Hi) in Ho.
  rewrite isString_lookup, (bool_decide_true _ Ho).
  cbn [negb]. rewrite andb_false_r. cbn. by rewrite !lookup_insert_eq.
Qed.

(** X10. A call for field [F], by any plugin or none and whatever its
    outcome, leaves every other field with its value and its owner, and
    leaves the node's id, parent, children, type, owner and content
    digest as they were. *)
Theorem createNodeField_frame n F v plugin F' :
  F' ≠ F →
  let n' := (createNodeField n F v plugin).1 in
  fieldOf n' F' = fieldOf n F'
  ∧ fieldOwnerOf n' F' = fieldOwnerOf n F'
  ∧ id n' = id n ∧ parent n' = parent n ∧ children n' = children n
  ∧ typeOf n' = typeOf n ∧ ownerOf n' = ownerOf n
  ∧ digestOf n' = digestOf n.
Proof.
  intros Hne n'. subst n'.
  destruct (createNodeField_other n F v plugin F' Hne) as [H1 H2].
  split; [done|]. split; [done|].
  destruct (internal n) as [i|] eqn:Hi.
  2: { unfold createNodeField. by rewrite Hi. }
  rewrite (createNodeField_unfold _ _ _ _ _ Hi). cbn zeta.
  unfold typeOf, ownerOf, digestOf. rewrite Hi.
  destruct plugin as [p|]; by repeat case_match.
Qed.

(** X11. Called without a plugin for a field that nobody owns and whose
    name is not an inherited member's, [createNodeField] throws at the
    read of [plugin.name] (line 313), after line 312 has written the
    value: the node holds the value, and the field still has no owner. *)
Theorem createNodeField_without_plugin n F v :
  is_Some (internal n) →
  F ∉ inheritedNames →
  truthy (fieldOwnerOf n F) = false →
  let r := createNodeField n F v None in
  r.2 = Thrown TypeError
  ∧ fieldOf r.1 F = Some v
  ∧ fieldOwnerOf r.1 F = fieldOwnerOf n F.
Proof.
  intros [i Hi] Hplain Hfree r. subst r.
  rewrite (createNodeField_unfold _ _ _ _ _ Hi). cbn zeta.
  rewrite (fieldOwnerOf_lookup _ _ _ Hi) in Hfree.
  rewrite (truthyProperty_plain _ _ Hplain), Hfree.
  cbn [fst snd]. split; [done|]. split.
  - unfold fieldOf. cbn. apply lookup_insert_eq.
  - unfold fieldOwnerOf. cbn. rewrite Hi. cbn. by destruct (fieldOwners i).
Qed.

(** X12. The field-ownership error is thrown only for a plugin, on a
    field whose recorded owner is not empty and is another name, or on a
    field without recorded owner whose name is an inherited member's; the
    call then leaves every field, [F] too, with its value and its
    owner. *)
Theorem createNodeField_conflict_changes_nothing n F v plugin :
  (createNodeField n F v plugin).2 = Thrown FieldOwnershipConflict →
  (∃ p, plugin = Some p
     ∧ ((∃ o, fieldOwnerOf n F = Some o ∧ o ≠ "" ∧ o ≠ name p)
        ∨ (fieldOwnerOf n F = None ∧ F ∈ inheritedNames)))
  ∧ ∀ F', fieldOf (createNodeField n F v plugin).1 F' = fieldOf n F'
         ∧ fieldOwnerOf (createNodeField n F v plugin).1 F' = fieldOwnerOf n F'.
Proof.
  destruct (internal n) as [i|] eqn:Hi.
  2: { unfold createNodeField. by rewrite Hi. }
  rewrite (createNodeField_unfold _ _ _ _ _ Hi). cbn zeta.
  destruct plugin as [p|]; [|by destruct (truthyProperty _)].
  rewrite isString_lookup.
  destruct (truthyProperty _) eqn:Ht; [|done].
  destruct (bool_decide (default ∅ (fieldOwners i) !! F = Some (name p)))
    eqn:Eo; [done|].
  apply bool_decide_eq_false in Eo. cbn [andb negb fst snd]. intros _.
  rewrite <- (fieldOwnerOf_lookup n i F Hi) in Eo.
  unfold getProperty in Ht. rewrite <- (fieldOwnerOf_lookup n i F Hi) in Ht.
  split.
  - exists p. split; [done|].
    destruct (fieldOwnerOf n F) as [o|] eqn:Ho.
    + left. exists o. split; [done|]. split; [|congruence].
      intros ->. by vm_compute in Ht.
    + right. split; [done|]. by case_bool_decide.
  - intros F'. unfold fieldOf, fieldOwnerOf. cbn. rewrite Hi. cbn.
    by destruct (fields n), (fieldOwners i).
Qed.

(** X13. A node object that has been through [createNodeField] cannot be
    passed to [createNode] again: the call has left a [fields] object on
    it (lines 292-294, also when it threw afterwards), so [createNode]
    throws the reserved-field error when the record validates, and
    returns [VALIDATION_ERROR] when it does not. *)
Theorem createNode_after_createNodeField (nodeSchema : Node → bool)
    s n F v plugin plugin' :
  is_Some (internal n) →
  let n' := (createNodeField n F v plugin').1 in
  createNode nodeSchema s n' plugin
  = {| state' := s; node' := stamp plugin n';
       outcome := if nodeSchema (stamp plugin n')
                  then Thrown ReservedFieldViolation
                  else Returned VALIDATION_ERROR |}.
Proof.
  intros Hi n'.
  destruct (createNodeField_ready n F v plugin' Hi) as [Hf _].
  fold n' in Hf. unfold createNode. fold (stamp plugin n').
  destruct (nodeSchema (stamp plugin n')); [|done].
  cbn [negb fields stamp setInternal]. by rewrite bool_decide_true.
Qed.

(** ** addNodeToParent *)

Lemma baseUniq_NoDup_id l : ∀ seen,
  NoDup l → (∀ x, x ∈ l → x ∉ seen) → Lodash.baseUniq seen l = l.
Proof.
  induction l as [|y l IH]; intros seen Hnd Hfresh; cbn; [done|].
  apply NoDup_cons in Hnd as [Hy Hnd].
  rewrite bool_decide_false by (apply Hfresh; by left).
  f_equal. apply IH; [done|].
  intros x Hx [->|Hs]%elem_of_cons; [done|].
  by apply (Hfresh x); [right|].
Qed.

(** X14. After [addNodeToParent] the children of the parent are the ids it
    had and the child's id, and nothing else; the parent's id, parent,
    fields and internal object are as they were, and the action carries
    the parent object. *)
Theorem addNodeToParent_children parentNode childNode plugin x :
  let r := addNodeToParent parentNode childNode plugin in
  (x ∈ children r.1 ↔ x ∈ children parentNode ∨ x = id childNode)
  ∧ id r.1 = id parentNode ∧ parent r.1 = parent parentNode
  ∧ fields r.1 = fields parentNode ∧ internal r.1 = internal parentNode
  ∧ r.2 = Returned (ADD_CHILD_NODE_TO_PARENT_NODE plugin r.1).
Proof.
  intros r. subst r. cbn. split; [|done]. unfold Lodash.uniq.
  rewrite elem_of_baseUniq, elem_of_app, list_elem_of_singleton.
  split; [tauto|]. intros H. split; [done|]. by intros ?%elem_of_nil.
Qed.

(** X15. On a parent whose children have no duplicates, [addNodeToParent]
    appends the id of a child that is not among them at the end, keeping
    the order of the others, and leaves the list as it is for a child that
    is among them. *)
Theorem addNodeToParent_appends parentNode childNode plugin :
  NoDup (children parentNode) →
  children (addNodeToParent parentNode childNode plugin).1
  = if bool_decide (id childNode ∈ children parentNode)
    then children parentNode
    else (children parentNode ++ [id childNode])%list.
Proof.
  intros Hnd. cbn. unfold Lodash.uniq. case_bool_decide as Hin.
  - apply baseUniq_push_present; [done| |by left].
    by intros x _ ?%elem_of_nil.
  - apply baseUniq_NoDup_id; [|by intros x _ ?%elem_of_nil].
    apply NoDup_app. split; [done|]. split; [|apply NoDup_singleton].
    intros x Hx ->%list_elem_of_singleton. done.
Qed.

(** ** createPage *)

Lemma normalizePath_absolute p : ∃ rest, normalizePath p = String "/" rest.
Proof.
  unfold normalizePath. destruct p as [|c p]; [by eexists|].
  destruct (decide (c = "/"%char)) as [->|Hc]; [by eexists|].
  assert (H : match String c p with
              | String "/" _ => String c p
              | _ => "/" ++ String c p
              end = "/" ++ String c p).
  { destruct c as [[] [] [] [] [] [] [] []]; try done. }
  rewrite H. by eexists.
Qed.

(** X16. The page in a [CREATE_PAGE] action has an absolute path: when
    the page validates, the path of the returned page starts with a
    slash; it is the path given when that started with a slash, and the
    path given with a slash in front otherwise (the empty path becomes
    ["/"]). *)
Theorem createPage_path_absolute (pageSchema : Page → bool)
    (layoutComponentChunkName : string → string) page plugin :
  pageSchema (derivePage layoutComponentChunkName page) = true →
  let r := createPage pageSchema layoutComponentChunkName page plugin in
  r.2 = Returned (CREATE_PAGE plugin r.1)
  ∧ (∃ rest, path r.1 = String "/" rest)
  ∧ (∀ rest, path page = String "/" rest → path r.1 = path page)
  ∧ ((∀ rest, path page ≠ String "/" rest) → path r.1 = "/" ++ path page).
Proof.
  intros Hv r. subst r.
  rewrite (createPage_valid _ _ _ _ Hv). cbn [fst snd path setPath derivePage].
  split; [done|]. split; [apply normalizePath_absolute|]. split.
  - intros rest ->. done.
  - intros Hno. unfold normalizePath. destruct (path page) as [|c p]; [done|].
    destruct (decide (c = "/"%char)) as [->|Hc]; [by destruct (Hno p)|].
    destruct c as [[] [] [] [] [] [] [] []]; try done.
Qed.

(** The words of a string of separators. *)
Lemma unicodeWordsFrom_separators fuel : ∀ l,
  Forall (λ c, Lodash.isAlnum c = false) l →
  Lodash.unicodeWordsFrom fuel l = [].
Proof.
  induction fuel as [|fuel IH]; intros l Hl; [by destruct l|].
  destruct l as [|c l]; [done|].
  apply Forall_cons in Hl as [Hc Hl]. cbn [Lodash.unicodeWordsFrom].
  unfold Lodash.isAlnum in Hc.
  apply orb_false_iff in Hc as [Hc Hd]. apply orb_false_iff in Hc as [Hlo Hup].
  unfold Lodash.matchAt. rewrite Hlo, Hup, Hd. by apply IH.
Qed.

Lemma asciiWordsFrom_separators fuel : ∀ l,
  Forall (λ c, Lodash.isAlnum c = false) l →
  Lodash.asciiWordsFrom fuel l = [].
Proof.
  induction fuel as [|fuel IH]; intros l Hl; [by destruct l|].
  destruct l as [|c l]; [done|].
  apply Forall_cons in Hl as [Hc Hl]. cbn [Lodash.asciiWordsFrom].
  rewrite Hc. by apply IH.
Qed.

Lemma words_separators s :
  Forall separator (String.list_ascii_of_string s) →
  Lodash.words (Lodash.dropApostrophes s) = [].
Proof.
  intros Hs. unfold Lodash.words, Lodash.dropApostrophes.
  rewrite String.list_ascii_of_string_of_list_ascii.
  assert (Hl : Forall (λ c, Lodash.isAlnum c = false)
                 (filter (λ c, c ≠ "'"%char) (String.list_ascii_of_string s))).
  { apply Forall_forall. intros c [_ Hc]%list_elem_of_filter.
    rewrite Forall_forall in Hs. by destruct (Hs c Hc). }
  destruct (Lodash.hasUnicodeWord _).
  - unfold Lodash.unicodeWords. by rewrite unicodeWordsFrom_separators.
  - unfold Lodash.asciiWords. by rewrite asciiWordsFrom_separators.
Qed.

(** X17. Every path made of ASCII characters that are neither letters nor
    digits (the empty path, ["/"], ["//"], ["/-/"], ...) gets the names of
    the root page, ["index.json"] and ["ComponentIndex"]: such paths
    share their derived names. *)
Theorem pageNames_separators_only p :
  Forall separator (String.list_ascii_of_string p) →
  pageNames p = ("index.json", "ComponentIndex").
Proof.
  intros Hp. unfold pageNames, pascalCase, Lodash.kebabCase, Lodash.camelCase.
  by rewrite (words_separators p Hp).
Qed.

(** ** Concrete runs of the further properties *)

Lemma createNode_without_plugin_witness :
  admissible sampleNodeSchema None nodeOwned
  ∧ createNode sampleNodeSchema stateA nodeOwned None
    = {| state' := stateA; node' := stamp None nodeOwned;
         outcome := Thrown TypeError |}.
Proof.
  assert (Hadm : admissible sampleNodeSchema None nodeOwned)
    by (split; by vm_compute).
  split; [exact Hadm|].
  exact (createNode_without_plugin sampleNodeSchema stateA nodeOwned Hadm).
Defined.

Lemma registryAfter_frame_witness :
  truthy (typeOwners (state' createdA) !! "File") = true
  ∧ registryAfter sampleNodeSchema (typeOwners (state' createdA)) callsQ
      !! "File"
    = typeOwners (state' createdA) !! "File".
Proof.
  assert (Ht : truthy (typeOwners (state' createdA) !! "File") = true)
    by (by vm_compute).
  split; [exact Ht|].
  exact (proj1 (proj2 (registryAfter_frame sampleNodeSchema callsQ
                         (typeOwners (state' createdA)) "File")) Ht).
Defined.

Lemma createNode_claims_type_at_gate_witness :
  outcome (createNode sampleNodeSchema stateA nodeB (Some pluginQ))
  = Thrown OwnershipViolation
  ∧ state' (createNode sampleNodeSchema stateA nodeB (Some pluginQ))
    = setTypeOwner (propertyKey (typeOf nodeB)) (name pluginQ) stateA.
Proof.
  split; [by vm_compute|].
  apply (createNode_claims_type_at_gate sampleNodeSchema stateA nodeB pluginQ).
  - split; by vm_compute.
  - not_inherited.
  - by vm_compute.
Defined.

Lemma createNode_action_invariant_witness :
  accepted (outcome (createNode sampleNodeSchema emptyState nodeA (Some pluginP)))
  = true
  ∧ ∃ p, Some pluginP = Some p
      ∧ admissible sampleNodeSchema (Some p) nodeA
      ∧ typeOwners (state' (createNode sampleNodeSchema emptyState nodeA
                              (Some pluginP)))
          !! propertyKey (typeOf nodeA) = Some (name p)
      ∧ ownerOf (node' (createNode sampleNodeSchema emptyState nodeA
                          (Some pluginP))) = Some (name p)
      ∧ (outcome (createNode sampleNodeSchema emptyState nodeA (Some pluginP))
         = Returned (CREATE_NODE (Some p) (stamp (Some p) nodeA))
         ∨ outcome (createNode sampleNodeSchema emptyState nodeA (Some pluginP))
           = Returned (TOUCH_NODE (Some p) (id nodeA))).
Proof.
  assert (Hacc : accepted (outcome (createNode sampleNodeSchema emptyState
                                      nodeA (Some pluginP))) = true)
    by (by vm_compute).
  split; [exact Hacc|].
  exact (createNode_action_invariant sampleNodeSchema emptyState nodeA
           (Some pluginP) Hacc).
Defined.

Lemma createNode_touch_only_stored_witness :
  outcome (createNode sampleNodeSchema stateA nodeA (Some pluginP))
  = Returned (TOUCH_NODE (Some pluginP) "node-1")
  ∧ "node-1" = id nodeA
  ∧ ∃ old p, getNode stateA (id nodeA) = Some old
      ∧ Some pluginP = Some p
      ∧ ownerOf old = Some (name p)
      ∧ digestOf old = digestOf nodeA.
Proof.
  assert (Hout : outcome (createNode sampleNodeSchema stateA nodeA (Some pluginP))
                 = Returned (TOUCH_NODE (Some pluginP) "node-1"))
    by (by vm_compute).
  split; [exact Hout|].
  exact (proj1 (createNode_touch_only_stored sampleNodeSchema stateA nodeA
                  (Some pluginP)) (Some pluginP) "node-1" Hout).
Defined.

Lemma createNode_fresh_id_witness :
  getNode stateA (id nodeC) = None
  ∧ outcome (createNode sampleNodeSchema stateA nodeC (Some pluginP))
    = Returned (CREATE_NODE (Some pluginP) (stamp (Some pluginP) nodeC))
  ∧ typeOwners (state' (createNode sampleNodeSchema stateA nodeC (Some pluginP)))
      !! propertyKey (typeOf nodeC) = Some (name pluginP)
  ∧ nodes (state' (createNode sampleNodeSchema stateA nodeC (Some pluginP)))
    = nodes stateA.
Proof.
  assert (Hnew : getNode stateA (id nodeC) = None) by (by vm_compute).
  split; [exact Hnew|].
  apply (createNode_fresh_id sampleNodeSchema stateA nodeC pluginP Hnew).
  - split; by vm_compute.
  - not_inherited.
  - right. by vm_compute.
Defined.

Lemma createNode_gate_outcomes_witness :
  sampleNodeSchema (stamp (Some pluginP) nodeBad) = false
  ∧ outcome (createNode sampleNodeSchema emptyState nodeBad (Some pluginP))
    = Returned VALIDATION_ERROR.
Proof.
  assert (Hv : sampleNodeSchema (stamp (Some pluginP) nodeBad) = false)
    by (by vm_compute).
  split; [exact Hv|].
  exact (proj2 (proj1 (createNode_gate_outcomes sampleNodeSchema emptyState
                         nodeBad (Some pluginP))) Hv).
Defined.

Lemma createNodeField_owner_updates_witness :
  fieldOwnerOf nodeSlug "slug" = Some (name pluginQ)
  ∧ (let r := createNodeField nodeSlug "slug" "/b/" (Some pluginQ) in
     r.2 = Returned (ADD_FIELD_TO_NODE (Some pluginQ) r.1)
     ∧ fieldOf r.1 "slug" = Some "/b/"
     ∧ fieldOwnerOf r.1 "slug" = Some (name pluginQ)).
Proof.
  assert (Ho : fieldOwnerOf nodeSlug "slug" = Some (name pluginQ))
    by (by vm_compute).
  split; [exact Ho|].
  exact (createNodeField_owner_updates nodeSlug "slug" "/b/" pluginQ Ho).
Defined.

Lemma createNodeField_frame_witness :
  "slug" ≠ "draft"
  ∧ (let n' := (createNodeField nodeSlug "draft" "no" (Some pluginP)).1 in
     fieldOf n' "slug" = fieldOf nodeSlug "slug"
     ∧ fieldOwnerOf n' "slug" = fieldOwnerOf nodeSlug "slug"
     ∧ id n' = id nodeSlug ∧ parent n' = parent nodeSlug
     ∧ children n' = children nodeSlug
     ∧ typeOf n' = typeOf nodeSlug ∧ ownerOf n' = ownerOf nodeSlug
     ∧ digestOf n' = digestOf nodeSlug).
Proof.
  assert (Hne : "slug" ≠ "draft") by (by vm_compute).
  split; [exact Hne|].
  exact (createNodeField_frame nodeSlug "draft" "no" (Some pluginP) "slug" Hne).
Defined.

Lemma createNodeField_without_plugin_witness :
  is_Some (internal (node' createdA))
  ∧ ("slug" ∉ inheritedNames)
  ∧ truthy (fieldOwnerOf (node' createdA) "slug") = false
  ∧ (let r := createNodeField (node' createdA) "slug" "/a/" None in
     r.2 = Thrown TypeError
     ∧ fieldOf r.1 "slug" = Some "/a/"
     ∧ fieldOwnerOf r.1 "slug" = fieldOwnerOf (node' createdA) "slug").
Proof.
  assert (Hi : is_Some (internal (node' createdA))) by (by eexists).
  assert (Hplain : "slug" ∉ inheritedNames) by not_inherited.
  split; [exact Hi|]. split; [exact Hplain|]. split; [by vm_compute|].
  exact (createNodeField_without_plugin (node' createdA) "slug" "/a/"
           Hi Hplain eq_refl).
Defined.

Lemma createNodeField_conflict_changes_nothing_witness :
  (createNodeField nodeSlug "slug" "/b/" (Some pluginP)).2
  = Thrown FieldOwnershipConflict
  ∧ (∃ p, Some pluginP = Some p
       ∧ ((∃ o, fieldOwnerOf nodeSlug "slug" = Some o ∧ o ≠ "" ∧ o ≠ name p)
          ∨ (fieldOwnerOf nodeSlug "slug" = None ∧ "slug" ∈ inheritedNames)))
  ∧ ∀ F',
      fieldOf (createNodeField nodeSlug "slug" "/b/" (Some pluginP)).1 F'
      = fieldOf nodeSlug F'
      ∧ fieldOwnerOf (createNodeField nodeSlug "slug" "/b/" (Some pluginP)).1 F'
        = fieldOwnerOf nodeSlug F'.
Proof.
  assert (Hout : (createNodeField nodeSlug "slug" "/b/" (Some pluginP)).2
                 = Thrown FieldOwnershipConflict) by (by vm_compute).
  split; [exact Hout|].
  exact (createNodeField_conflict_changes_nothing nodeSlug "slug" "/b/"
           (Some pluginP) Hout).
Defined.

Lemma createNode_after_createNodeField_witness :
  is_Some (internal (node' createdA))
  ∧ outcome (createNode sampleNodeSchema stateA nodeSlug (Some pluginP))
    = Thrown ReservedFieldViolation.
Proof.
  assert (Hi : is_Some (internal (node' createdA))) by (by eexists).
  split; [exact Hi|].
  exact (f_equal outcome
           (createNode_after_createNodeField sampleNodeSchema stateA
              (node' createdA) "slug" "/a/" (Some pluginP) (Some pluginQ) Hi)).
Defined.

Lemma addNodeToParent_appends_witness :
  NoDup (children nodeParent)
  ∧ children (addNodeToParent nodeParent nodeA (Some pluginP)).1
    = ["node-7"; "node-8"; "node-1"]
  ∧ children (addNodeToParent nodeParent (mkNode "node-8" "File" "d")
                (Some pluginP)).1
    = ["node-7"; "node-8"].
Proof.
  assert (Hnd : NoDup (children nodeParent))
    by (apply (bool_decide_unpack _); by vm_compute).
  split; [exact Hnd|]. split.
  - exact (addNodeToParent_appends nodeParent nodeA (Some pluginP) Hnd).
  - exact (addNodeToParent_appends nodeParent (mkNode "node-8" "File" "d")
             (Some pluginP) Hnd).
Defined.

Lemma createPage_path_absolute_witness :
  samplePageSchema (derivePage sampleChunkName pageAbout) = true
  ∧ (let r := createPage samplePageSchema sampleChunkName pageAbout
                (Some pluginP) in
     r.2 = Returned (CREATE_PAGE (Some pluginP) r.1)
     ∧ (∃ rest, path r.1 = String "/" rest)
     ∧ (∀ rest, path pageAbout = String "/" rest → path r.1 = path pageAbout)
     ∧ ((∀ rest, path pageAbout ≠ String "/" rest) →
        path r.1 = "/" ++ path pageAbout)).
Proof.
  assert (Hv : samplePageSchema (derivePage sampleChunkName pageAbout) = true)
    by (by vm_compute).
  split; [exact Hv|].
  exact (createPage_path_absolute samplePageSchema sampleChunkName pageAbout
           (Some pluginP) Hv).
Defined.

Lemma pageNames_separators_only_witness :
  Forall separator (String.list_ascii_of_string "/-/")
  ∧ pageNames "/-/" = ("index.json", "ComponentIndex").
Proof.
  assert (Hs : Forall separator (String.list_ascii_of_string "/-/")).
  { change (Forall separator ["/"; "-"; "/"]%char).
    repeat (constructor; [split; by vm_compute|]). constructor. }
  split; [exact Hs|].
  exact (pageNames_separators_only "/-/" Hs).
Defined.
